(** * kore: the comm engine (pkg/comm/engine.go)

    A shallow embedding of the message-routing [Engine]: the three message
    buffers, the extension registry, the raw-ingress filter, the command
    dispatcher, the egress dispatcher, the extension loaders and the
    dispatch loop of [Start], followed by the properties of the
    specification that concern them.

    Conventions.
    - A Go [string] is a sequence of bytes: it is a Rocq [string], whose
      [ascii] elements are the bytes.  [s[0]] is the first byte.
    - A Go map is a [gmap]; [range] over a map visits every entry once, in
      an order the language leaves open: the order is a parameter
      ([range_map]) constrained only to be a permutation of the entries.
    - The body of every [go func() { ... }()] is run as one atomic step;
      a channel send appends to the buffer (capacity and blocking are not
      modelled).
    - The engine's methods have a pointer receiver: they are computations in
      a state monad over the whole [Engine] and the trace of what the
      outside world observes (log lines, handler calls, adapter calls).  A
      run-time panic stops the computation and keeps the state reached. *)

From Stdlib Require Import NArith Ascii.
From stdpp Require Import base option list strings gmap fin_maps.

Local Open Scope string_scope.
Local Open Scope N_scope.
Local Open Scope list_scope.

(** ** Strings and bytes *)

(** [utf8.EncodeRune]: the UTF-8 encoding of a code point; a surrogate or
    a value above U+10FFFF encodes as U+FFFD. *)
Definition tx : N := 0x80.
Definition t2 : N := 0xC0.
Definition t3 : N := 0xE0.
Definition t4 : N := 0xF0.
Definition maskx : N := 0x3F.
Definition rune1Max : N := 0x7F.
Definition rune2Max : N := 0x7FF.
Definition rune3Max : N := 0xFFFF.
Definition MaxRune : N := 0x10FFFF.
Definition surrogateMin : N := 0xD800.
Definition surrogateMax : N := 0xDFFF.
Definition RuneError : N := 0xFFFD.

Definition bytes (l : list N) : string :=
  String.string_of_list_ascii (map Ascii.ascii_of_N l).

Definition encode3 (r : N) : string :=
  bytes [N.lor t3 (N.shiftr r 12);
         N.lor tx (N.land (N.shiftr r 6) maskx);
         N.lor tx (N.land r maskx)].

Definition encoderune (r : N) : string :=
  if r <=? rune1Max then bytes [r]
  else if r <=? rune2Max then
    bytes [N.lor t2 (N.shiftr r 6); N.lor tx (N.land r maskx)]
  else if (MaxRune <? r) || ((surrogateMin <=? r) && (r <=? surrogateMax))
  then encode3 RuneError
  else if r <=? rune3Max then encode3 r
  else
    bytes [N.lor t4 (N.shiftr r 18);
           N.lor tx (N.land (N.shiftr r 12) maskx);
           N.lor tx (N.land (N.shiftr r 6) maskx);
           N.lor tx (N.land r maskx)].

(** The conversion [string(b)] of a byte [b]: Go converts an integer to
    the string holding the UTF-8 encoding of that code point, so a byte
    of 0x80 and above becomes a two-byte string. *)
Definition string_of_byte (b : Ascii.ascii) : string :=
  encoderune (Ascii.N_of_ascii b).

(** A code point that is a character of its own: in range, no surrogate. *)
Definition valid_rune (r : N) : Prop :=
  r <= MaxRune /\ ~ (surrogateMin <= r <= surrogateMax).

(** ** Messages *)

Module RawIngressMessage.
Record t := mk { Identity : string; ChannelID : string; RawContent : string }.
End RawIngressMessage.

Module Originator.
Record t := mk { Identity : string; ChannelID : string; AdapterName : string }.
End Originator.

Module IngressMessage.
Record t := mk { Originator : Originator.t; Content : string }.
End IngressMessage.

Module EgressMessage.
Record t := mk { ChannelID : string; Content : string }.
End EgressMessage.

Module rawIngressBufferMsg.
Record t := mk { AdapterName : string;
                 RawIngressMessage : RawIngressMessage.t }.
End rawIngressBufferMsg.

Module ingressBufferMsg.
Record t := mk { IngressMessage : IngressMessage.t }.
End ingressBufferMsg.

Module egressBufferMsg.
Record t := mk { Originator : Originator.t;
                 EgressMessage : EgressMessage.t }.
End egressBufferMsg.

(** ** Extensions *)

(** Modelled from the spec: the delegate handed to a handler, declared
    outside engine.go; a per-invocation scratch object holding the message,
    the submatches and the response accumulator. *)
Module CmdDelegate.
Record t := mk { IngressMessage : IngressMessage.t;
                 Submatches : list string;
                 response : string }.
End CmdDelegate.

(** Modelled from the spec: [NewCmdDelegate], declared outside engine.go;
    the response accumulator starts empty (a handler that sets no response
    produces no egress traffic). *)
Definition NewCmdDelegate (im : IngressMessage.t) (subm : list string)
  : CmdDelegate.t :=
  CmdDelegate.mk im subm "".

(** A handler receives a pointer to the delegate and returns nothing: it is
    the function from the delegate it is given to the delegate it leaves. *)
Definition CmdFn : Type := CmdDelegate.t -> CmdDelegate.t.

(** A compiled pattern, by the one method the engine calls.  The result is
    empty (nil) when the pattern matches nowhere in the text. *)
Module Regexp.
Record t := mk { FindStringSubmatch : string -> list string }.
End Regexp.

Module CmdLink.
Record t := mk { Regexp : Regexp.t; CmdFn : CmdFn }.
End CmdLink.

Module Plugin.
Record t := mk { Name : string; CmdManifest : gmap string CmdLink.t }.
End Plugin.

(** An adapter is an interface value; [impl] stands for the loaded object
    behind it, so that two adapters reporting one name stay distinct. *)
Module Adapter.
Record t := mk { Name : string; impl : string }.
End Adapter.

Module cmdMatch.
Record t := mk { CmdFn : CmdFn; Submatches : list string }.
End cmdMatch.

(** ** The engine and what the outside observes *)

Record Engine := mkEngine {
  rawIngressBuffer : list rawIngressBufferMsg.t;
  ingressBuffer : list ingressBufferMsg.t;
  egressBuffer : list egressBufferMsg.t;
  plugins : gmap string Plugin.t;
  adapters : gmap string Adapter.t
}.

Inductive Level := Debug | Info | Warning.

Inductive LogArg :=
| ArgString (s : string)
| ArgIngress (im : IngressMessage.t)
| ArgEgress (ebm : egressBufferMsg.t).

Inductive Event :=
| EvLog (lvl : Level) (format : string) (args : list LogArg)
| EvListen (a : Adapter.t)
| EvCmdFn (given returned : CmdDelegate.t)
| EvSendMessage (a : Adapter.t) (m : EgressMessage.t).

Record State := mkState { eng : Engine; trace : list Event }.

(** ** The monad of engine code *)

Inductive Res (A : Type) :=
| Ok (a : A)
| Panic (reason : string).
Arguments Ok {A} a.
Arguments Panic {A} reason.

Definition M (A : Type) : Type := State -> Res A * State.

Definition ret {A} (a : A) : M A := fun s => (Ok a, s).

Definition bind {A B} (m : M A) (k : A -> M B) : M B :=
  fun s => match m s with
           | (Ok a, s') => k a s'
           | (Panic r, s') => (Panic r, s')
           end.

Definition panic {A} (reason : string) : M A := fun s => (Panic reason, s).

#[global] Instance M_ret : MRet M := @ret.
#[global] Instance M_bind : MBind M := fun A B k m => bind m k.

Definition gets {A} (f : Engine -> A) : M A := fun s => (Ok (f (eng s)), s).

Definition modify (f : Engine -> Engine) : M unit :=
  fun s => (Ok tt, mkState (f (eng s)) (trace s)).

Definition emit (ev : Event) : M unit :=
  fun s => (Ok tt, mkState (eng s) (trace s ++ [ev])).

Definition logf (lvl : Level) (format : string) (args : list LogArg) : M unit :=
  emit (EvLog lvl format args).

(** [log.Warning(x)] and the like print their argument with no format. *)
Definition logv (lvl : Level) (arg : string) : M unit :=
  emit (EvLog lvl "%v" [ArgString arg]).

(** [s[0]]: indexing an empty string panics. *)
Definition index0 (s : string) : M Ascii.ascii :=
  match s with
  | EmptyString => panic "index out of range [0] with length 0"
  | String b _ => ret b
  end.

(** Channel sends. *)
Definition send_rawIngressBuffer (m : rawIngressBufferMsg.t) : M unit :=
  modify (fun e => mkEngine (rawIngressBuffer e ++ [m]) (ingressBuffer e)
                            (egressBuffer e) (plugins e) (adapters e)).

Definition send_ingressBuffer (m : ingressBufferMsg.t) : M unit :=
  modify (fun e => mkEngine (rawIngressBuffer e) (ingressBuffer e ++ [m])
                            (egressBuffer e) (plugins e) (adapters e)).

Definition send_egressBuffer (m : egressBufferMsg.t) : M unit :=
  modify (fun e => mkEngine (rawIngressBuffer e) (ingressBuffer e)
                            (egressBuffer e ++ [m]) (plugins e) (adapters e)).

(** [for _, x := range xs { body }] *)
Fixpoint for_each {A} (xs : list A) (body : A -> M unit) : M unit :=
  match xs with
  | [] => ret tt
  | x :: xs' => body x;; for_each xs' body
  end.

(** ** Ingress filter and parser *)

(** [parseRawContent]: [rawContent[1:len(rawContent)]]; the slice
    expression panics on the empty string. *)
Definition parseRawContent (rawContent : string) : M string :=
  match rawContent with
  | EmptyString => panic "slice bounds out of range [1:0]"
  | String _ rest => ret rest
  end.

(** ** What engine.go takes from the rest of the repository *)

Definition error : Type := string.

(** Modelled from the spec: the configuration read by [config.New], declared
    outside engine.go; a buffer size and, for plugins and for adapters, a
    directory and the list of enabled names. *)
Module ExtensionConfig.
Record t := mk { Dir : string; Enabled : list string }.
End ExtensionConfig.

Module Config.
Record t := mk { BufferSize : nat;
                 GetPlugin : ExtensionConfig.t;
                 GetAdapter : ExtensionConfig.t }.
End Config.

(** ** Sample extensions and messages *)

(** The order of the map's own enumeration, one of those [range] may take. *)
Definition range_sorted (A : Type) (m : gmap string A) : list (string * A) :=
  map_to_list m.

(** A classifier that flags what starts with an exclamation mark. *)
Definition isCmd_bang (rawContent : string) : bool :=
  match rawContent with
  | String b _ => Ascii.eqb b "!"%char
  | EmptyString => false
  end.

(** A classifier that flags everything, the empty string included. *)
Definition isCmd_all (rawContent : string) : bool := true.

(** A pattern without metacharacters: the search for [text] anywhere in
    the content. *)
Definition literal (text : string) : Regexp.t :=
  Regexp.mk (fun content =>
               match String.index 0 text content with
               | Some _ => [text]
               | None => []
               end).

(** A handler that answers [text], and one that answers nothing. *)
Definition reply (text : string) : CmdFn :=
  fun delegate =>
    CmdDelegate.mk (CmdDelegate.IngressMessage delegate)
                   (CmdDelegate.Submatches delegate) text.

Definition silent : CmdFn := fun delegate => delegate.

Definition plugin_ping : Plugin.t :=
  Plugin.mk "ping" {[ "ping" := CmdLink.mk (literal "ping") (reply "pong") ]}.

Definition plugin_status : Plugin.t :=
  Plugin.mk "status"
    (<[ "status" := CmdLink.mk (literal "status") (reply "up") ]>
       {[ "stat" := CmdLink.mk (literal "stat") silent ]}).

Definition plugin_uptime : Plugin.t :=
  Plugin.mk "uptime"
    {[ "status" := CmdLink.mk (literal "status") (reply "3 days") ]}.

(** Two plugins that report one name. *)
Definition plugin_dup1 : Plugin.t :=
  Plugin.mk "dup" {[ "ping" := CmdLink.mk (literal "ping") (reply "one") ]}.

Definition plugin_dup2 : Plugin.t :=
  Plugin.mk "dup" {[ "ping" := CmdLink.mk (literal "ping") (reply "two") ]}.

Definition discord : Adapter.t := Adapter.mk "discord" "adapters/discord.so".
Definition adapter_dup1 : Adapter.t := Adapter.mk "chat" "adapters/a.so".
Definition adapter_dup2 : Adapter.t := Adapter.mk "chat" "adapters/b.so".

Definition sample_engine : Engine :=
  mkEngine [] [] []
    (<[ "ping" := plugin_ping ]>
       (<[ "status" := plugin_status ]> {[ "uptime" := plugin_uptime ]}))
    {[ "discord" := discord ]}.

Definition sample_state : State := mkState sample_engine [].

Definition empty_state : State := mkState (mkEngine [] [] [] ∅ ∅) [].

Definition raw (content : string) : rawIngressBufferMsg.t :=
  rawIngressBufferMsg.mk "discord"
    (RawIngressMessage.mk "alice" "general" content).

Definition command (content : string) : ingressBufferMsg.t :=
  ingressBufferMsg.mk
    (IngressMessage.mk (Originator.mk "alice" "general" "discord") content).

Definition sample_config : Config.t :=
  Config.mk 8 (ExtensionConfig.mk "plugins" ["a"; "b"])
              (ExtensionConfig.mk "adapters" ["a"; "b"]).

Definition sample_Join (dir file : string) : string := dir +:+ "/" +:+ file.

Definition sample_LoadPlugin (file : string) : Plugin.t + error :=
  if String.eqb file "plugins/a.so" then inl plugin_dup1
  else if String.eqb file "plugins/b.so" then inl plugin_dup2
  else inr "plugin.Open: file does not exist".

Definition sample_LoadAdapter (file : string) : Adapter.t + error :=
  if String.eqb file "adapters/a.so" then inl adapter_dup1
  else if String.eqb file "adapters/b.so" then inl adapter_dup2
  else inr "plugin.Open: file does not exist".

(** A configuration whose second enabled extension does not exist. *)
Definition broken_config : Config.t :=
  Config.mk 8 (ExtensionConfig.mk "plugins" ["a"; "missing"; "b"])
              (ExtensionConfig.mk "adapters" ["a"; "missing"; "b"]).

(** A state with a message waiting in the raw ingress buffer. *)
Definition queued_state : State :=
  mkState
    (mkEngine [raw "!ping"] [] [] (plugins sample_engine)
              (adapters sample_engine))
    [].

(** A content whose first character is U+00C3, on the two bytes C3 83,
    and that character as the trigger prefix. *)
Definition trigger_C3 : string := bytes [0xC3; 0x83].
Definition content_C3 : string := trigger_C3 +:+ "ping".

Section Engine.

(** Declared outside engine.go: the command classifier and the trigger. *)
Variable isCmd : string -> bool.
Variable adapterCmdTriggerPrefix : string.

(** The order in which [range] visits a map. *)
Variable range_map : forall A : Type, gmap string A -> list (string * A).
Hypothesis range_map_perm :
  forall (A : Type) (m : gmap string A), range_map A m ≡ₚ map_to_list m.

(** The external collaborators of the loaders: the configuration, the
    path of an extension's artifact and the loading of one artifact. *)
Variable config_New : Config.t + error.
Variable filepath_Join : string -> string -> string.
Variable LoadPlugin : string -> Plugin.t + error.
Variable LoadAdapter : string -> Adapter.t + error.

Definition handleRawIngress (m : rawIngressBufferMsg.t) : M unit :=
  let adapterName := rawIngressBufferMsg.AdapterName m in
  let rm := rawIngressBufferMsg.RawIngressMessage m in
  if negb (isCmd (RawIngressMessage.RawContent rm)) then ret tt
  else
    b ← index0 (RawIngressMessage.RawContent rm);
    if bool_decide (string_of_byte b ≠ adapterCmdTriggerPrefix) then
      logf Warning
        "raw content was flagged as a command, but does not contain trigger prefix, skipping..."
        [];;
      logv Warning (RawIngressMessage.RawContent rm);;
      ret tt
    else
      content ← parseRawContent (RawIngressMessage.RawContent rm);
      send_ingressBuffer
        (ingressBufferMsg.mk
           (IngressMessage.mk
              (Originator.mk (RawIngressMessage.Identity rm)
                             (RawIngressMessage.ChannelID rm)
                             adapterName)
              content)).

(** ** Command dispatcher *)

Definition applyCmdLink (content : string) (matches : list cmdMatch.t)
    (cmdLink : CmdLink.t) : list cmdMatch.t :=
  let re := CmdLink.Regexp cmdLink in
  let subm := Regexp.FindStringSubmatch re content in
  if bool_decide (0 < length subm)%nat then
    matches ++ [cmdMatch.mk (CmdLink.CmdFn cmdLink) subm]
  else matches.

Definition applyCmdManifests (content : string) : M (list cmdMatch.t) :=
  ps ← gets plugins;
  mret
    (foldl (fun matches plugin =>
              foldl (fun matches cmdLink =>
                       applyCmdLink content matches cmdLink.2)
                    matches
                    (range_map _ (Plugin.CmdManifest plugin.2)))
           [] (range_map _ ps)).

(** The call [cmdMatch.CmdFn(&delegate)]. *)
Definition callCmdFn (f : CmdFn) (delegate : CmdDelegate.t)
  : M CmdDelegate.t :=
  emit (EvCmdFn delegate (f delegate));; mret (f delegate).

Definition handleIngress (ibm : ingressBufferMsg.t) : M unit :=
  let im := ingressBufferMsg.IngressMessage ibm in
  logf Debug "Engine::handleIngress: %+v" [ArgIngress im];;
  cmdMatches ← applyCmdManifests (IngressMessage.Content im);
  for_each cmdMatches (fun cmdMatch =>
    delegate ← callCmdFn (cmdMatch.CmdFn cmdMatch)
                 (NewCmdDelegate im (cmdMatch.Submatches cmdMatch));
    if bool_decide (CmdDelegate.response delegate ≠ "") then
      send_egressBuffer
        (egressBufferMsg.mk
           (IngressMessage.Originator im)
           (EgressMessage.mk
              (Originator.ChannelID (IngressMessage.Originator im))
              (CmdDelegate.response delegate)))
    else mret tt).

(** ** Egress dispatcher *)

(** A missing key yields the nil interface, and the method call on it
    panics. *)
Definition handleEgress (ebm : egressBufferMsg.t) : M unit :=
  logf Debug "Engine::handleEgress: %+v" [ArgEgress ebm];;
  registered ← gets adapters;
  match registered !! Originator.AdapterName (egressBufferMsg.Originator ebm) with
  | Some adapter =>
      emit (EvSendMessage adapter (egressBufferMsg.EgressMessage ebm))
  | None => panic "invalid memory address or nil pointer dereference"
  end.

(** ** Extension loading *)

Definition set_plugins (f : gmap string Plugin.t -> gmap string Plugin.t)
  : M unit :=
  modify (fun e => mkEngine (rawIngressBuffer e) (ingressBuffer e)
                            (egressBuffer e) (f (plugins e)) (adapters e)).

Definition set_adapters (f : gmap string Adapter.t -> gmap string Adapter.t)
  : M unit :=
  modify (fun e => mkEngine (rawIngressBuffer e) (ingressBuffer e)
                            (egressBuffer e) (plugins e) (f (adapters e))).

(** The loop over [plugConf.Enabled]; the first failing load returns. *)
Fixpoint loadPlugins_each (dir : string) (enabled : list string)
  : M (option error) :=
  match enabled with
  | [] => mret None
  | pluginName :: enabled' =>
      logf Info "-> %v" [ArgString pluginName];;
      let pluginFile := filepath_Join dir (pluginName +:+ ".so") in
      match LoadPlugin pluginFile with
      | inr err => mret (Some err)
      | inl loadedPlugin =>
          set_plugins (insert (Plugin.Name loadedPlugin) loadedPlugin);;
          loadPlugins_each dir enabled'
      end
  end.

Definition loadPlugins : M (option error) :=
  match config_New with
  | inr err => mret (Some err)
  | inl c =>
      let plugConf := Config.GetPlugin c in
      logf Info "Loading plugins from: %v"
           [ArgString (ExtensionConfig.Dir plugConf)];;
      err ← loadPlugins_each (ExtensionConfig.Dir plugConf)
                             (ExtensionConfig.Enabled plugConf);
      match err with
      | Some err => mret (Some err)
      | None =>
          logv Info "Successfully loaded plugins:";;
          ps ← gets plugins;
          for_each (range_map _ ps)
                   (fun entry => logf Info "-> %s" [ArgString entry.1]);;
          mret None
      end
  end.

Fixpoint loadAdapters_each (dir : string) (enabled : list string)
  : M (option error) :=
  match enabled with
  | [] => mret None
  | adapterName :: enabled' =>
      logf Info "-> %v" [ArgString adapterName];;
      let adapterFile := filepath_Join dir (adapterName +:+ ".so") in
      logf Info "file: %s" [ArgString adapterFile];;
      match LoadAdapter adapterFile with
      | inr err => mret (Some err)
      | inl loadedAdapter =>
          set_adapters (insert (Adapter.Name loadedAdapter) loadedAdapter);;
          loadAdapters_each dir enabled'
      end
  end.

Definition loadAdapters : M (option error) :=
  match config_New with
  | inr err => mret (Some err)
  | inl c =>
      let adapterConf := Config.GetAdapter c in
      logf Info "Loading adapters from: %v"
           [ArgString (ExtensionConfig.Dir adapterConf)];;
      err ← loadAdapters_each (ExtensionConfig.Dir adapterConf)
                              (ExtensionConfig.Enabled adapterConf);
      match err with
      | Some err => mret (Some err)
      | None =>
          logv Info "Successfully loaded adapters:";;
          registered ← gets adapters;
          for_each (range_map _ registered)
                   (fun entry => logf Info "-> %s" [ArgString entry.1]);;
          mret None
      end
  end.

Definition LoadExtensions : M (option error) :=
  logv Info "Loading extensions";;
  err ← loadPlugins;
  match err with
  | Some err => mret (Some err)
  | None => loadAdapters
  end.

(** [NewEngine]: empty buffers (of the configured capacity) and empty
    maps; a configuration error panics. *)
Definition NewEngine : Res Engine :=
  match config_New with
  | inr err => Panic err
  | inl _ => Ok (mkEngine [] [] [] ∅ ∅)
  end.

(** ** The run phase: [Start] *)

(** The first loop of [Start] asks every adapter to listen. *)
Definition Start_listen : M unit :=
  registered ← gets adapters;
  for_each (range_map _ registered) (fun entry => emit (EvListen entry.2)).

Definition recv_rawIngressBuffer (s : State)
  : option (rawIngressBufferMsg.t * State) :=
  match rawIngressBuffer (eng s) with
  | [] => None
  | m :: q =>
      Some (m, mkState (mkEngine q (ingressBuffer (eng s))
                                 (egressBuffer (eng s)) (plugins (eng s))
                                 (adapters (eng s)))
                       (trace s))
  end.

Definition recv_ingressBuffer (s : State)
  : option (ingressBufferMsg.t * State) :=
  match ingressBuffer (eng s) with
  | [] => None
  | m :: q =>
      Some (m, mkState (mkEngine (rawIngressBuffer (eng s)) q
                                 (egressBuffer (eng s)) (plugins (eng s))
                                 (adapters (eng s)))
                       (trace s))
  end.

Definition recv_egressBuffer (s : State)
  : option (egressBufferMsg.t * State) :=
  match egressBuffer (eng s) with
  | [] => None
  | m :: q =>
      Some (m, mkState (mkEngine (rawIngressBuffer (eng s))
                                 (ingressBuffer (eng s)) q
                                 (plugins (eng s)) (adapters (eng s)))
                       (trace s))
  end.

(** One step of the run phase, with the adapters [Start] spawned a
    listener for: a listener relays a message of its adapter into the raw
    ingress buffer, or the [select] of the dispatch loop takes the head of
    a buffer that has one and runs its handler. *)
Inductive step (listening : list Adapter.t)
  : State -> Res unit * State -> Prop :=
| step_relay s adapter rim :
    adapter ∈ listening ->
    step listening s
         (send_rawIngressBuffer
            (rawIngressBufferMsg.mk (Adapter.Name adapter) rim) s)
| step_rawIngress s m s' :
    recv_rawIngressBuffer s = Some (m, s') ->
    step listening s (handleRawIngress m s')
| step_ingress s m s' :
    recv_ingressBuffer s = Some (m, s') ->
    step listening s (handleIngress m s')
| step_egress s m s' :
    recv_egressBuffer s = Some (m, s') ->
    step listening s (handleEgress m s').

(** A run: steps that return; a panicking step ends the program. *)
Inductive run (listening : list Adapter.t) : State -> State -> Prop :=
| run_done s : run listening s s
| run_step s s' s'' :
    step listening s (Ok tt, s') ->
    run listening s' s'' ->
    run listening s s''.

(** [Start]: log the start, spawn the listeners, then loop. *)
Definition Start (s s'' : State) : Prop :=
  exists s',
    (logv Debug "Engine::Start";; Start_listen) s = (Ok tt, s') /\
    run (map snd (range_map _ (adapters (eng s)))) s' s''.

(** ** Raw-ingress handling *)

Definition forwarded (m : rawIngressBufferMsg.t) (content : string)
  : ingressBufferMsg.t :=
  let rm := rawIngressBufferMsg.RawIngressMessage m in
  ingressBufferMsg.mk
    (IngressMessage.mk
       (Originator.mk (RawIngressMessage.Identity rm)
                      (RawIngressMessage.ChannelID rm)
                      (rawIngressBufferMsg.AdapterName m))
       content).

(** The trigger test of [handleRawIngress] passes on [content]. *)
Definition trigger_ok (content : string) : Prop :=
  exists b rest,
    content = String b rest /\ string_of_byte b = adapterCmdTriggerPrefix.

(** ** Notions the properties are stated with *)

Definition is_warning (ev : Event) : bool :=
  match ev with
  | EvLog Warning _ _ => true
  | _ => false
  end.

(** The two maps of the extension registry. *)
Definition registry (s : State)
  : gmap string Plugin.t * gmap string Adapter.t :=
  (plugins (eng s), adapters (eng s)).

(** Every pattern of every loaded plugin, in the canonical order of the
    maps' entries. *)
Definition cmdLinks (e : Engine) : list CmdLink.t :=
  map_to_list (plugins e) ≫=
    (fun plugin => snd <$> map_to_list (Plugin.CmdManifest plugin.2)).

(** The pattern of [cmdLink], searched for in [content], matches. *)
Definition matches_content (content : string) (cmdLink : CmdLink.t) : Prop :=
  (0 < length (Regexp.FindStringSubmatch (CmdLink.Regexp cmdLink) content))%nat.

#[global] Instance matches_content_dec content cmdLink :
  Decision (matches_content content cmdLink) :=
  decide (0 < length (Regexp.FindStringSubmatch (CmdLink.Regexp cmdLink) content))%nat.

(** The handler invocation a matching pattern gives rise to: the delegate
    handed to the handler and the delegate the handler returns it as. *)
Definition invocation (im : IngressMessage.t) (cmdLink : CmdLink.t)
  : CmdDelegate.t * CmdDelegate.t :=
  let delegate :=
    NewCmdDelegate im
      (Regexp.FindStringSubmatch (CmdLink.Regexp cmdLink)
                                 (IngressMessage.Content im)) in
  (delegate, CmdLink.CmdFn cmdLink delegate).

(** The handler invocations recorded in a trace. *)
Definition invocations (t : list Event)
  : list (CmdDelegate.t * CmdDelegate.t) :=
  omap (fun ev => match ev with
                  | EvCmdFn given returned => Some (given, returned)
                  | _ => None
                  end) t.

Definition responded (call : CmdDelegate.t * CmdDelegate.t) : Prop :=
  CmdDelegate.response call.2 ≠ "".

#[global] Instance responded_dec call : Decision (responded call) :=
  decide (CmdDelegate.response call.2 ≠ "").

(** The adapter calls recorded in a trace. *)
Definition sends (t : list Event) : list (Adapter.t * EgressMessage.t) :=
  omap (fun ev => match ev with
                  | EvSendMessage a m => Some (a, m)
                  | _ => None
                  end) t.

(** What the dispatcher queues for one invocation. *)
Definition egress_of (im : IngressMessage.t) (returned : CmdDelegate.t)
  : list egressBufferMsg.t :=
  if bool_decide (CmdDelegate.response returned ≠ "") then
    [egressBufferMsg.mk
       (IngressMessage.Originator im)
       (EgressMessage.mk
          (Originator.ChannelID (IngressMessage.Originator im))
          (CmdDelegate.response returned))]
  else [].

Definition to_match (content : string) (cmdLink : CmdLink.t) : cmdMatch.t :=
  cmdMatch.mk (CmdLink.CmdFn cmdLink)
              (Regexp.FindStringSubmatch (CmdLink.Regexp cmdLink) content).

Definition run_match (im : IngressMessage.t) (cm : cmdMatch.t)
  : CmdDelegate.t * CmdDelegate.t :=
  let delegate := NewCmdDelegate im (cmdMatch.Submatches cm) in
  (delegate, cmdMatch.CmdFn cm delegate).

(** The patterns in the order [range] visits them. *)
Definition cmdLinks_ranged (e : Engine) : list CmdLink.t :=
  range_map _ (plugins e) ≫=
    (fun plugin => snd <$> range_map _ (Plugin.CmdManifest plugin.2)).

Definition with_egress (s : State) (egs : list egressBufferMsg.t)
    (evs : list Event) : State :=
  mkState (mkEngine (rawIngressBuffer (eng s)) (ingressBuffer (eng s))
                    (egressBuffer (eng s) ++ egs) (plugins (eng s))
                    (adapters (eng s)))
          (trace s ++ evs).

(** The loop of [handleIngress] over the matches. *)
Definition dispatch (im : IngressMessage.t) (cm : cmdMatch.t) : M unit :=
  delegate ← callCmdFn (cmdMatch.CmdFn cm)
               (NewCmdDelegate im (cmdMatch.Submatches cm));
  if bool_decide (CmdDelegate.response delegate ≠ "") then
    send_egressBuffer
      (egressBufferMsg.mk
         (IngressMessage.Originator im)
         (EgressMessage.mk
            (Originator.ChannelID (IngressMessage.Originator im))
            (CmdDelegate.response delegate)))
  else mret tt.

Definition is_info (ev : Event) : bool :=
  match ev with
  | EvLog Info _ _ => true
  | _ => false
  end.

(** The artifact file of an enabled extension. *)
Definition extension_file (dir name : string) : string :=
  filepath_Join dir (name +:+ ".so").

(** The extensions that load, in the order of the enabled names. *)
Definition loaded_plugins (dir : string) (enabled : list string)
  : list Plugin.t :=
  omap (fun name => match LoadPlugin (extension_file dir name) with
                    | inl loaded => Some loaded
                    | inr _ => None
                    end) enabled.

Definition loaded_adapters (dir : string) (enabled : list string)
  : list Adapter.t :=
  omap (fun name => match LoadAdapter (extension_file dir name) with
                    | inl loaded => Some loaded
                    | inr _ => None
                    end) enabled.

Definition register_plugins (loaded : list Plugin.t)
    (m : gmap string Plugin.t) : gmap string Plugin.t :=
  foldl (fun m loadedPlugin => <[Plugin.Name loadedPlugin := loadedPlugin]> m)
        m loaded.

Definition register_adapters (loaded : list Adapter.t)
    (m : gmap string Adapter.t) : gmap string Adapter.t :=
  foldl (fun m loadedAdapter => <[Adapter.Name loadedAdapter := loadedAdapter]> m)
        m loaded.

Definition with_plugins (s : State) (ps : gmap string Plugin.t)
    (evs : list Event) : State :=
  mkState (mkEngine (rawIngressBuffer (eng s)) (ingressBuffer (eng s))
                    (egressBuffer (eng s)) ps (adapters (eng s)))
          (trace s ++ evs).

Definition with_adapters (s : State) (ads : gmap string Adapter.t)
    (evs : list Event) : State :=
  mkState (mkEngine (rawIngressBuffer (eng s)) (ingressBuffer (eng s))
                    (egressBuffer (eng s)) (plugins (eng s)) ads)
          (trace s ++ evs).

(** The test used to go through the characters of two bytes. *)
Definition two_byte_check (r : N) : bool :=
  match encoderune r with
  | String b (String _ EmptyString) =>
      bool_decide (string_of_byte b = encoderune r <-> r = 0xC3)
  | _ => false
  end.

(** ** Notions for the loaders and the life cycle *)

(** The enabled names a loader gets to: all of them up to, and with, the
    first one that fails to load. *)
Fixpoint attempted_plugins (dir : string) (enabled : list string)
  : list string :=
  match enabled with
  | [] => []
  | name :: enabled' =>
      name :: match LoadPlugin (extension_file dir name) with
              | inl _ => attempted_plugins dir enabled'
              | inr _ => []
              end
  end.

Fixpoint attempted_adapters (dir : string) (enabled : list string)
  : list string :=
  match enabled with
  | [] => []
  | name :: enabled' =>
      name :: match LoadAdapter (extension_file dir name) with
              | inl _ => attempted_adapters dir enabled'
              | inr _ => []
              end
  end.

(** The error of the first enabled name that fails to load. *)
Fixpoint first_plugin_error (dir : string) (enabled : list string)
  : option error :=
  match enabled with
  | [] => None
  | name :: enabled' =>
      match LoadPlugin (extension_file dir name) with
      | inl _ => first_plugin_error dir enabled'
      | inr err => Some err
      end
  end.

Fixpoint first_adapter_error (dir : string) (enabled : list string)
  : option error :=
  match enabled with
  | [] => None
  | name :: enabled' =>
      match LoadAdapter (extension_file dir name) with
      | inl _ => first_adapter_error dir enabled'
      | inr err => Some err
      end
  end.

(** The log lines of the two loading loops. *)
Definition plugin_lines (names : list string) : list Event :=
  (fun name => EvLog Info "-> %v" [ArgString name]) <$> names.

Definition adapter_lines (dir : string) (names : list string) : list Event :=
  names ≫= (fun name =>
    [EvLog Info "-> %v" [ArgString name];
     EvLog Info "file: %s" [ArgString (extension_file dir name)]]).

(** Every entry of a registry map is stored under the name it reports. *)
Definition plugins_keyed (m : gmap string Plugin.t) : Prop :=
  forall key loaded, m !! key = Some loaded -> Plugin.Name loaded = key.

Definition adapters_keyed (m : gmap string Adapter.t) : Prop :=
  forall key loaded, m !! key = Some loaded -> Adapter.Name loaded = key.

(** The three buffers of a state. *)
Definition buffers (s : State)
  : list rawIngressBufferMsg.t * list ingressBufferMsg.t *
    list egressBufferMsg.t :=
  (rawIngressBuffer (eng s), ingressBuffer (eng s), egressBuffer (eng s)).

(** An adapter is registered under [name]. *)
Definition routable (s : State) (name : string) : Prop :=
  is_Some (adapters (eng s) !! name).

(** Every buffered message names a registered adapter. *)
Definition buffers_routable (s : State) : Prop :=
  Forall (fun m => routable s (rawIngressBufferMsg.AdapterName m))
         (rawIngressBuffer (eng s)) /\
  Forall (fun m => routable s
                     (Originator.AdapterName
                        (IngressMessage.Originator
                           (ingressBufferMsg.IngressMessage m))))
         (ingressBuffer (eng s)) /\
  Forall (fun m => routable s
                     (Originator.AdapterName (egressBufferMsg.Originator m)))
         (egressBuffer (eng s)).

(** Every adapter with a listener is the one registered under its name. *)
Definition listening_registered (listening : list Adapter.t) (s : State)
  : Prop :=
  forall adapter,
    adapter ∈ listening ->
    adapters (eng s) !! Adapter.Name adapter = Some adapter.

(** What a loader leaves in its map and what it returns, for a
    configuration that was read. *)
Definition plugins_loaded_by (c : Config.t) (m : gmap string Plugin.t)
  : gmap string Plugin.t :=
  let conf := Config.GetPlugin c in
  register_plugins
    (loaded_plugins (ExtensionConfig.Dir conf)
       (attempted_plugins (ExtensionConfig.Dir conf)
                          (ExtensionConfig.Enabled conf)))
    m.

Definition adapters_loaded_by (c : Config.t) (m : gmap string Adapter.t)
  : gmap string Adapter.t :=
  let conf := Config.GetAdapter c in
  register_adapters
    (loaded_adapters (ExtensionConfig.Dir conf)
       (attempted_adapters (ExtensionConfig.Dir conf)
                           (ExtensionConfig.Enabled conf)))
    m.

Definition plugins_error (c : Config.t) : option error :=
  first_plugin_error (ExtensionConfig.Dir (Config.GetPlugin c))
                     (ExtensionConfig.Enabled (Config.GetPlugin c)).

Definition adapters_error (c : Config.t) : option error :=
  first_adapter_error (ExtensionConfig.Dir (Config.GetAdapter c))
                      (ExtensionConfig.Enabled (Config.GetAdapter c)).

(** ** Raw-ingress handling: proofs *)

Lemma handleRawIngress_cases (m : rawIngressBufferMsg.t) (s : State) :
  let content :=
    RawIngressMessage.RawContent (rawIngressBufferMsg.RawIngressMessage m) in
  handleRawIngress m s =
    if isCmd content then
      match content with
      | EmptyString => (Panic "index out of range [0] with length 0", s)
      | String b rest =>
          if decide (string_of_byte b = adapterCmdTriggerPrefix) then
            send_ingressBuffer (forwarded m rest) s
          else
            (Ok tt,
             mkState (eng s)
               (trace s ++
                [EvLog Warning
                   "raw content was flagged as a command, but does not contain trigger prefix, skipping..."
                   [];
                 EvLog Warning "%v" [ArgString content]]))
      end
    else (Ok tt, s).
Proof.
  intros content. unfold handleRawIngress. fold content.
  destruct (isCmd content); simpl; [|reflexivity].
  destruct content as [|b rest]; [reflexivity|].
  unfold mbind, M_bind, bind. simpl.
  destruct (decide (string_of_byte b = adapterCmdTriggerPrefix)) as [Heq|Hne].
  - rewrite bool_decide_eq_false_2 by (intros H; exact (H Heq)).
    reflexivity.
  - rewrite bool_decide_eq_true_2 by exact Hne.
    unfold logf, logv, emit. simpl. rewrite <- app_assoc. reflexivity.
Qed.

Lemma string_of_byte_ascii (b : Ascii.ascii) :
  Ascii.N_of_ascii b < 0x80 -> string_of_byte b = String b "".
Proof.
  destruct b as [[] [] [] [] [] [] [] []]; intros H; vm_compute in H;
    first [discriminate|reflexivity].
Qed.

(** C1, as amended.  A raw message classified as a command whose first
    byte passes the code's test, [string(RawContent[0])] equal to the
    trigger prefix, puts exactly one message on the ingress buffer: its
    content is the raw content without that first byte and its originator
    is the identity and channel of the raw message with the name of the
    adapter that produced it; nothing else changes.  For a first byte
    below 0x80 the test says that the first character is the trigger
    prefix. *)
Theorem handleRawIngress_forwards_command
    (m : rawIngressBufferMsg.t) (s : State) (b : Ascii.ascii) (rest : string) :
  let rm := rawIngressBufferMsg.RawIngressMessage m in
  isCmd (RawIngressMessage.RawContent rm) = true ->
  RawIngressMessage.RawContent rm = String b rest ->
  (string_of_byte b = adapterCmdTriggerPrefix ->
   handleRawIngress m s =
     (Ok tt,
      mkState
        (mkEngine
           (rawIngressBuffer (eng s))
           (ingressBuffer (eng s) ++
            [ingressBufferMsg.mk
               (IngressMessage.mk
                  (Originator.mk (RawIngressMessage.Identity rm)
                                 (RawIngressMessage.ChannelID rm)
                                 (rawIngressBufferMsg.AdapterName m))
                  rest)])
           (egressBuffer (eng s)) (plugins (eng s)) (adapters (eng s)))
        (trace s))) /\
  (Ascii.N_of_ascii b < 0x80 ->
   (string_of_byte b = adapterCmdTriggerPrefix <->
    String b "" = adapterCmdTriggerPrefix)).
Proof.
  intros rm Hcmd Hcontent. split.
  - intros Htrigger.
    rewrite handleRawIngress_cases. fold rm. rewrite Hcmd, Hcontent.
    rewrite decide_True by exact Htrigger. reflexivity.
  - intros Hascii. rewrite (string_of_byte_ascii b Hascii). reflexivity.
Qed.

(** C3.  A raw message that is not classified as a command is dropped
    silently: the handler returns and leaves the whole state as it was,
    so no ingress message, no egress message and no log line appear. *)
Theorem handleRawIngress_drops_non_command
    (m : rawIngressBufferMsg.t) (s : State) :
  isCmd (RawIngressMessage.RawContent
           (rawIngressBufferMsg.RawIngressMessage m)) = false ->
  handleRawIngress m s = (Ok tt, s).
Proof.
  intros Hcmd. rewrite handleRawIngress_cases. rewrite Hcmd. reflexivity.
Qed.

(** C4, as amended.  A raw message classified as a command whose first
    byte fails the code's test, [string(RawContent[0])] different from the
    trigger prefix, puts nothing on the ingress buffer and logs two warning
    entries: the fixed message, then the raw content.  For a first byte
    below 0x80 the test fails exactly when the first character is not the
    trigger prefix. *)
Theorem handleRawIngress_wrong_trigger
    (m : rawIngressBufferMsg.t) (s : State) (b : Ascii.ascii) (rest : string) :
  let content :=
    RawIngressMessage.RawContent (rawIngressBufferMsg.RawIngressMessage m) in
  isCmd content = true ->
  content = String b rest ->
  (string_of_byte b <> adapterCmdTriggerPrefix ->
   exists logged,
     handleRawIngress m s = (Ok tt, mkState (eng s) (trace s ++ logged)) /\
     logged =
       [EvLog Warning
          "raw content was flagged as a command, but does not contain trigger prefix, skipping..."
          [];
        EvLog Warning "%v" [ArgString content]] /\
     length (filter is_warning logged) = 2%nat) /\
  (Ascii.N_of_ascii b < 0x80 ->
   (string_of_byte b <> adapterCmdTriggerPrefix <->
    String b "" <> adapterCmdTriggerPrefix)).
Proof.
  intros content Hcmd Hcontent. split.
  - intros Htrigger.
    eexists. split; [|split; [reflexivity|reflexivity]].
    rewrite handleRawIngress_cases. fold content. rewrite Hcmd.
    rewrite Hcontent at 1.
    rewrite decide_False by exact Htrigger. reflexivity.
  - intros Hascii. rewrite (string_of_byte_ascii b Hascii). reflexivity.
Qed.

(** C6.  A raw message yields at most one ingress message: the ingress
    buffer after the handler is the buffer before it followed by a list
    of at most one message, and that list has one message exactly when
    the content is classified as a command and passes the trigger test;
    the other two buffers are untouched. *)
Theorem handleRawIngress_at_most_one
    (m : rawIngressBufferMsg.t) (s : State) :
  let content :=
    RawIngressMessage.RawContent (rawIngressBufferMsg.RawIngressMessage m) in
  let s' := (handleRawIngress m s).2 in
  exists produced : list ingressBufferMsg.t,
    ingressBuffer (eng s') = ingressBuffer (eng s) ++ produced /\
    (length produced <= 1)%nat /\
    (length produced = 1%nat <-> isCmd content = true /\ trigger_ok content) /\
    rawIngressBuffer (eng s') = rawIngressBuffer (eng s) /\
    egressBuffer (eng s') = egressBuffer (eng s).
Proof.
  intros content s'. subst s'. rewrite handleRawIngress_cases. fold content.
  destruct (isCmd content) eqn:Hcmd.
  - destruct content as [|b rest] eqn:Hcontent.
    + exists []. simpl. rewrite app_nil_r.
      repeat split; try lia; try discriminate.
      all: intros [_ (b & rest & Hb & _)]; discriminate.
    + destruct (decide (string_of_byte b = adapterCmdTriggerPrefix)) as [Heq|Hne].
      * exists [forwarded m rest]. simpl.
        repeat split; try lia. exists b, rest. split; [reflexivity|exact Heq].
      * exists []. simpl. rewrite app_nil_r.
        repeat split; try lia; try discriminate.
        all: intros [_ (b' & rest' & Hb & Ht)]; injection Hb as -> ->;
          contradiction.
  - exists []. simpl. rewrite app_nil_r.
    repeat split; try lia; try discriminate.
    all: intros [Hc _]; congruence.
Qed.

(** C9.  Neither the trigger test nor the strip guards against the empty
    string: [RawContent[0]] and [parseRawContent] both panic on it.  The
    handler therefore panics exactly when the classifier flags an empty
    content as a command, and then on the out-of-range index; on a
    non-empty content it always returns. *)
Theorem handleRawIngress_index_safety
    (m : rawIngressBufferMsg.t) (s : State) :
  let content :=
    RawIngressMessage.RawContent (rawIngressBufferMsg.RawIngressMessage m) in
  (index0 "" s = (Panic "index out of range [0] with length 0", s) /\
   parseRawContent "" s = (Panic "slice bounds out of range [1:0]", s)) /\
  (content <> "" -> (handleRawIngress m s).1 = Ok tt) /\
  (isCmd content = true -> content = "" ->
   handleRawIngress m s =
     (Panic "index out of range [0] with length 0", s)) /\
  ((exists reason, (handleRawIngress m s).1 = Panic reason) <->
   isCmd content = true /\ content = "").
Proof.
  intros content. split; [split; reflexivity|].
  rewrite handleRawIngress_cases. fold content.
  destruct (isCmd content) eqn:Hcmd.
  - destruct content as [|b rest] eqn:Hc.
    + split; [congruence|]. split; [reflexivity|].
      split; [intros _; split; reflexivity|].
      intros _. eexists. reflexivity.
    + split.
      { intros _. destruct (decide (string_of_byte b = adapterCmdTriggerPrefix));
          reflexivity. }
      split; [discriminate|]. split; [|intros [_ H]; discriminate].
      intros [reason Hr].
      destruct (decide (string_of_byte b = adapterCmdTriggerPrefix));
        discriminate.
  - split; [reflexivity|]. split; [discriminate|].
    split; [intros [reason Hr]; discriminate|intros [H _]; discriminate].
Qed.

(** ** Command dispatcher: proofs *)

Lemma with_egress_nil (s : State) : with_egress s [] [] = s.
Proof.
  destruct s as [[raw ing eg ps ads] t]. unfold with_egress. simpl.
  rewrite !app_nil_r. reflexivity.
Qed.

Lemma with_egress_app (s : State) egs1 evs1 egs2 evs2 :
  with_egress (with_egress s egs1 evs1) egs2 evs2 =
  with_egress s (egs1 ++ egs2) (evs1 ++ evs2).
Proof. unfold with_egress. simpl. rewrite !app_assoc. reflexivity. Qed.

Lemma applyCmdLink_foldl (content : string) (entries : list (string * CmdLink.t))
    (matches : list cmdMatch.t) :
  foldl (fun matches cmdLink => applyCmdLink content matches cmdLink.2)
        matches entries =
  matches ++ (to_match content <$> filter (matches_content content) (snd <$> entries)).
Proof.
  revert matches. induction entries as [|[name cmdLink] entries IH];
    intros matches; simpl.
  - rewrite app_nil_r. reflexivity.
  - rewrite IH. unfold applyCmdLink at 1. simpl.
    rewrite filter_cons. unfold matches_content at 2.
    case_bool_decide; case_decide; try contradiction.
    + rewrite <- app_assoc. reflexivity.
    + reflexivity.
Qed.

Lemma applyCmdManifests_foldl (content : string)
    (ps : list (string * Plugin.t)) (matches : list cmdMatch.t) :
  foldl (fun matches plugin =>
           foldl (fun matches cmdLink =>
                    applyCmdLink content matches cmdLink.2)
                 matches
                 (range_map _ (Plugin.CmdManifest plugin.2)))
        matches ps =
  matches ++
  (to_match content <$>
   filter (matches_content content)
     (ps ≫= (fun plugin => snd <$> range_map _ (Plugin.CmdManifest plugin.2)))).
Proof.
  revert matches. induction ps as [|plugin ps IH]; intros matches; simpl.
  - rewrite app_nil_r. reflexivity.
  - rewrite IH, applyCmdLink_foldl, filter_app, fmap_app, app_assoc.
    reflexivity.
Qed.

Lemma applyCmdManifests_run (content : string) (s : State) :
  applyCmdManifests content s =
  (Ok (to_match content <$>
       filter (matches_content content) (cmdLinks_ranged (eng s))), s).
Proof.
  unfold applyCmdManifests, mbind, M_bind, bind, gets, mret, M_ret, ret.
  rewrite applyCmdManifests_foldl. reflexivity.
Qed.

Lemma bind_Permutation_ext {A B} (f g : A -> list B) (l1 l2 : list A) :
  l1 ≡ₚ l2 -> (forall x, f x ≡ₚ g x) -> l1 ≫= f ≡ₚ l2 ≫= g.
Proof.
  intros Hl Hfg. rewrite <- Hl. clear Hl l2.
  induction l1 as [|x l1 IH]; [reflexivity|].
  rewrite !bind_cons, IH, Hfg. reflexivity.
Qed.

Lemma cmdLinks_ranged_perm (e : Engine) : cmdLinks_ranged e ≡ₚ cmdLinks e.
Proof.
  unfold cmdLinks_ranged, cmdLinks. apply bind_Permutation_ext.
  - apply range_map_perm.
  - intros plugin. rewrite range_map_perm. reflexivity.
Qed.

Lemma dispatch_run (im : IngressMessage.t) (cm : cmdMatch.t) (s : State) :
  dispatch im cm s =
  (Ok tt,
   with_egress s (egress_of im (run_match im cm).2)
               [EvCmdFn (run_match im cm).1 (run_match im cm).2]).
Proof.
  destruct s as [[raw ing eg ps ads] t].
  unfold dispatch, callCmdFn, mbind, M_bind, bind, emit, mret, M_ret, ret,
    egress_of, run_match, with_egress. simpl.
  case_bool_decide; simpl.
  - reflexivity.
  - rewrite app_nil_r. reflexivity.
Qed.

Lemma dispatch_all_run (im : IngressMessage.t) (cms : list cmdMatch.t)
    (s : State) :
  for_each cms (dispatch im) s =
  (Ok tt,
   with_egress s
     (cms ≫= (fun cm => egress_of im (run_match im cm).2))
     ((fun cm => EvCmdFn (run_match im cm).1 (run_match im cm).2) <$> cms)).
Proof.
  revert s. induction cms as [|cm cms IH]; intros s.
  - simpl. rewrite with_egress_nil. reflexivity.
  - cbn [for_each]. unfold mbind, M_bind, bind.
    rewrite dispatch_run, IH, with_egress_app. reflexivity.
Qed.

Lemma handleIngress_run (ibm : ingressBufferMsg.t) (s : State) :
  let im := ingressBufferMsg.IngressMessage ibm in
  let cms := to_match (IngressMessage.Content im) <$>
             filter (matches_content (IngressMessage.Content im))
                    (cmdLinks_ranged (eng s)) in
  handleIngress ibm s =
  (Ok tt,
   with_egress s
     (cms ≫= (fun cm => egress_of im (run_match im cm).2))
     (EvLog Debug "Engine::handleIngress: %+v" [ArgIngress im] ::
      ((fun cm => EvCmdFn (run_match im cm).1 (run_match im cm).2) <$> cms))).
Proof.
  intros im cms. unfold handleIngress. fold im.
  change (for_each ?l _) with (for_each l (dispatch im)).
  unfold mbind, M_bind, bind, logf, emit.
  rewrite applyCmdManifests_run. simpl eng. fold cms.
  rewrite dispatch_all_run. unfold with_egress. simpl.
  rewrite <- app_assoc. reflexivity.
Qed.

Lemma invocations_calls (im : IngressMessage.t) (cms : list cmdMatch.t) :
  invocations
    ((fun cm => EvCmdFn (run_match im cm).1 (run_match im cm).2) <$> cms) =
  run_match im <$> cms.
Proof.
  induction cms as [|cm cms IH]; [reflexivity|].
  unfold invocations in *. rewrite !fmap_cons. cbn [omap list_omap].
  rewrite IH. destruct (run_match im cm). reflexivity.
Qed.

Lemma egress_count (im : IngressMessage.t) (cms : list cmdMatch.t) :
  length (cms ≫= (fun cm => egress_of im (run_match im cm).2)) =
  length (filter responded (run_match im <$> cms)).
Proof.
  induction cms as [|cm cms IH]; [reflexivity|].
  rewrite bind_cons, length_app, IH, fmap_cons, filter_cons.
  unfold egress_of, responded at 1.
  case_bool_decide; case_decide; try contradiction; reflexivity.
Qed.

Lemma run_match_to_match (im : IngressMessage.t) (links : list CmdLink.t) :
  run_match im <$> (to_match (IngressMessage.Content im) <$> links) =
  invocation im <$> links.
Proof. rewrite <- list_fmap_compose. reflexivity. Qed.

(** C2.  Whatever order [range] visits the maps in: the handler
    invocations made for an ingress message are, up to order, one for
    every pattern of every loaded plugin that the search
    [FindStringSubmatch] finds somewhere in the whole content, each
    handed a new delegate with that pattern's submatches; so there are
    exactly as many invocations as matching patterns, none is cut off,
    and the egress messages queued are as many as the invocations that
    returned a non-empty response. *)
Theorem handleIngress_invokes_every_match
    (ibm : ingressBufferMsg.t) (s : State) :
  let im := ingressBufferMsg.IngressMessage ibm in
  let matching :=
    filter (matches_content (IngressMessage.Content im)) (cmdLinks (eng s)) in
  exists (evs : list Event) (egs : list egressBufferMsg.t),
    handleIngress ibm s = (Ok tt, with_egress s egs evs) /\
    invocations evs ≡ₚ invocation im <$> matching /\
    length (invocations evs) = length matching /\
    length egs = length (filter responded (invocations evs)).
Proof.
  intros im matching. eexists _, _. split; [apply handleIngress_run|].
  fold im.
  assert (Hinv :
    invocations
      (EvLog Debug "Engine::handleIngress: %+v" [ArgIngress im] ::
       ((fun cm => EvCmdFn (run_match im cm).1 (run_match im cm).2) <$>
        (to_match (IngressMessage.Content im) <$>
         filter (matches_content (IngressMessage.Content im))
                (cmdLinks_ranged (eng s))))) =
    invocation im <$>
      filter (matches_content (IngressMessage.Content im))
             (cmdLinks_ranged (eng s))).
  { change (invocations (?ev :: ?l)) with (invocations l).
    rewrite invocations_calls. apply run_match_to_match. }
  rewrite Hinv.
  assert (Hperm :
    invocation im <$>
      filter (matches_content (IngressMessage.Content im))
             (cmdLinks_ranged (eng s)) ≡ₚ invocation im <$> matching).
  { unfold matching. rewrite cmdLinks_ranged_perm. reflexivity. }
  split; [exact Hperm|]. split.
  - rewrite Hperm. apply length_fmap.
  - rewrite egress_count, run_match_to_match. reflexivity.
Qed.

(** ** Egress dispatcher: proofs *)

Lemma handleEgress_run (ebm : egressBufferMsg.t) (s : State) :
  handleEgress ebm s =
  match adapters (eng s) !!
        Originator.AdapterName (egressBufferMsg.Originator ebm) with
  | Some adapter =>
      (Ok tt,
       mkState (eng s)
         (trace s ++
          [EvLog Debug "Engine::handleEgress: %+v" [ArgEgress ebm];
           EvSendMessage adapter (egressBufferMsg.EgressMessage ebm)]))
  | None =>
      (Panic "invalid memory address or nil pointer dereference",
       mkState (eng s)
         (trace s ++
          [EvLog Debug "Engine::handleEgress: %+v" [ArgEgress ebm]]))
  end.
Proof.
  unfold handleEgress, mbind, M_bind, bind, logf, emit, gets, panic. simpl.
  destruct (adapters (eng s) !! _); [|reflexivity].
  simpl. rewrite <- app_assoc. reflexivity.
Qed.

Lemma egress_of_originator (im : IngressMessage.t) (cms : list cmdMatch.t) :
  Forall (fun ebm =>
            egressBufferMsg.Originator ebm = IngressMessage.Originator im /\
            EgressMessage.ChannelID (egressBufferMsg.EgressMessage ebm) =
            Originator.ChannelID (IngressMessage.Originator im))
         (cms ≫= (fun cm => egress_of im (run_match im cm).2)).
Proof.
  induction cms as [|cm cms IH]; [constructor|].
  rewrite bind_cons. apply Forall_app. split; [|exact IH].
  unfold egress_of. case_bool_decide; repeat constructor.
Qed.

(** C5.  Every egress message the command dispatcher queues for an
    ingress message with originator [o] is tagged with [o] and carries
    [o]'s channel; and the egress dispatcher, given such a message in any
    state, makes no adapter call but one [SendMessage], of that message,
    on the adapter registered under [o]'s adapter name (with no adapter
    registered under that name it makes none, and panics). *)
Theorem egress_routed_to_originator
    (ibm : ingressBufferMsg.t) (s : State) :
  let o := IngressMessage.Originator (ingressBufferMsg.IngressMessage ibm) in
  exists (evs : list Event) (egs : list egressBufferMsg.t),
    handleIngress ibm s = (Ok tt, with_egress s egs evs) /\
    Forall
      (fun ebm =>
         egressBufferMsg.Originator ebm = o /\
         EgressMessage.ChannelID (egressBufferMsg.EgressMessage ebm) =
         Originator.ChannelID o /\
         forall s0 : State,
           sends (trace (handleEgress ebm s0).2) =
           sends (trace s0) ++
           match adapters (eng s0) !! Originator.AdapterName o with
           | Some adapter => [(adapter, egressBufferMsg.EgressMessage ebm)]
           | None => []
           end /\
           (handleEgress ebm s0).1 =
           match adapters (eng s0) !! Originator.AdapterName o with
           | Some _ => Ok tt
           | None => Panic "invalid memory address or nil pointer dereference"
           end)
      egs.
Proof.
  intros o. eexists _, _. split; [apply handleIngress_run|].
  eapply Forall_impl; [apply egress_of_originator|].
  intros ebm [Ho Hc]. fold o in Ho, Hc. split; [exact Ho|]. split; [exact Hc|].
  intros s0. rewrite handleEgress_run, Ho.
  destruct (adapters (eng s0) !! Originator.AdapterName o); simpl;
    unfold sends; rewrite omap_app; simpl.
  - split; reflexivity.
  - split; reflexivity.
Qed.

(** ** The run phase: proofs *)

Lemma for_each_registry {A} (xs : list A) (body : A -> M unit) :
  (forall x s, registry (body x s).2 = registry s) ->
  forall s, registry (for_each xs body s).2 = registry s.
Proof.
  intros Hbody. induction xs as [|x xs IH]; intros s; [reflexivity|].
  cbn [for_each]. unfold mbind, M_bind, bind.
  specialize (Hbody x s). destruct (body x s) as [[[]|reason] s1]; simpl in *.
  - rewrite IH. exact Hbody.
  - exact Hbody.
Qed.

Lemma handleRawIngress_registry m s :
  registry (handleRawIngress m s).2 = registry s.
Proof.
  rewrite handleRawIngress_cases.
  destruct (isCmd _); [|reflexivity].
  destruct (RawIngressMessage.RawContent _) as [|b rest]; [reflexivity|].
  destruct (decide _); reflexivity.
Qed.

Lemma handleIngress_registry ibm s :
  registry (handleIngress ibm s).2 = registry s.
Proof. rewrite handleIngress_run. reflexivity. Qed.

Lemma applyCmdManifests_registry content s :
  registry (applyCmdManifests content s).2 = registry s.
Proof. rewrite applyCmdManifests_run. reflexivity. Qed.

Lemma handleEgress_registry ebm s :
  registry (handleEgress ebm s).2 = registry s.
Proof. rewrite handleEgress_run. destruct (_ !! _); reflexivity. Qed.

Lemma Start_listen_registry s : registry (Start_listen s).2 = registry s.
Proof.
  unfold Start_listen, mbind, M_bind, bind, gets.
  apply for_each_registry. reflexivity.
Qed.

Lemma step_registry listening s out :
  step listening s out -> registry out.2 = registry s.
Proof.
  intros Hstep. destruct Hstep as [s adapter rim _|s m s' Hrecv|s m s' Hrecv|s m s' Hrecv].
  - reflexivity.
  - rewrite handleRawIngress_registry. unfold recv_rawIngressBuffer in Hrecv.
    destruct (rawIngressBuffer (eng s)); [discriminate|].
    injection Hrecv as _ <-. reflexivity.
  - rewrite handleIngress_registry. unfold recv_ingressBuffer in Hrecv.
    destruct (ingressBuffer (eng s)); [discriminate|].
    injection Hrecv as _ <-. reflexivity.
  - rewrite handleEgress_registry. unfold recv_egressBuffer in Hrecv.
    destruct (egressBuffer (eng s)); [discriminate|].
    injection Hrecv as _ <-. reflexivity.
Qed.

Lemma run_registry listening s s' :
  run listening s s' -> registry s' = registry s.
Proof.
  induction 1 as [s|s s' s'' Hstep _ IH]; [reflexivity|].
  rewrite IH. exact (step_registry _ _ _ Hstep).
Qed.

(** C7.  No operation of the run phase writes the plugins or the adapters
    map: raw-ingress handling, ingress dispatch, command matching and
    egress dispatch leave both as they found them, whether they return or
    panic, and so do the listeners' start, every step of the dispatch
    loop, every run of it and [Start] as a whole.  The maps are those
    extension loading built. *)
Theorem run_phase_preserves_registry :
  (forall m s, registry (handleRawIngress m s).2 = registry s) /\
  (forall ibm s, registry (handleIngress ibm s).2 = registry s) /\
  (forall content s, registry (applyCmdManifests content s).2 = registry s) /\
  (forall ebm s, registry (handleEgress ebm s).2 = registry s) /\
  (forall s, registry (Start_listen s).2 = registry s) /\
  (forall listening s s' out,
      run listening s s' -> step listening s' out ->
      registry out.2 = registry s) /\
  (forall s s', Start s s' -> registry s' = registry s).
Proof.
  split; [exact handleRawIngress_registry|].
  split; [exact handleIngress_registry|].
  split; [exact applyCmdManifests_registry|].
  split; [exact handleEgress_registry|].
  split; [exact Start_listen_registry|].
  split.
  - intros listening s s' out Hrun Hstep.
    rewrite (step_registry _ _ _ Hstep). exact (run_registry _ _ _ Hrun).
  - intros s s'' (s' & Hlisten & Hrun).
    rewrite (run_registry _ _ _ Hrun).
    pose proof (Start_listen_registry
                  (mkState (eng s)
                     (trace s ++
                      [EvLog Debug "%v" [ArgString "Engine::Start"]]))) as H.
    unfold mbind, M_bind, bind, logv, emit in Hlisten.
    rewrite Hlisten in H. exact H.
Qed.

(** ** Extension loading: proofs *)

Lemma with_plugins_id (s : State) : with_plugins s (plugins (eng s)) [] = s.
Proof.
  destruct s as [[raw ing eg ps ads] t]. unfold with_plugins. simpl.
  rewrite app_nil_r. reflexivity.
Qed.

Lemma with_adapters_id (s : State) : with_adapters s (adapters (eng s)) [] = s.
Proof.
  destruct s as [[raw ing eg ps ads] t]. unfold with_adapters. simpl.
  rewrite app_nil_r. reflexivity.
Qed.

Lemma log_each_run {A} (entries : list (string * A)) (format : string)
    (s : State) :
  for_each entries (fun entry => logf Info format [ArgString entry.1]) s =
  (Ok tt,
   mkState (eng s)
     (trace s ++
      ((fun entry : string * A => EvLog Info format [ArgString entry.1])
         <$> entries))).
Proof.
  revert s. induction entries as [|entry entries IH]; intros s.
  - simpl. rewrite app_nil_r. destruct s; reflexivity.
  - cbn [for_each]. unfold mbind, M_bind, bind, logf at 1, emit.
    rewrite IH. simpl. rewrite <- app_assoc. reflexivity.
Qed.

Lemma log_each_info {A} (entries : list (string * A)) (format : string) :
  Forall is_info
    ((fun entry : string * A => EvLog Info format [ArgString entry.1])
       <$> entries).
Proof. induction entries; constructor; [exact I|assumption]. Qed.

Lemma loadPlugins_each_run (dir : string) (enabled : list string) (s : State) :
  Forall (fun name => exists loaded,
              LoadPlugin (extension_file dir name) = inl loaded) enabled ->
  exists evs,
    loadPlugins_each dir enabled s =
    (Ok None,
     with_plugins s
       (register_plugins (loaded_plugins dir enabled) (plugins (eng s))) evs) /\
    Forall is_info evs.
Proof.
  revert s. induction enabled as [|name enabled IH]; intros s Hall.
  - exists []. split; [|constructor].
    simpl. rewrite with_plugins_id. reflexivity.
  - apply Forall_cons in Hall as [[loaded Hload] Hall].
    cbn [loadPlugins_each]. unfold mbind, M_bind, bind, logf at 1, emit.
    fold (extension_file dir name). rewrite Hload.
    unfold set_plugins, modify.
    destruct (IH (mkState
                    (mkEngine (rawIngressBuffer (eng s)) (ingressBuffer (eng s))
                              (egressBuffer (eng s))
                              (<[Plugin.Name loaded := loaded]> (plugins (eng s)))
                              (adapters (eng s)))
                    (trace s ++ [EvLog Info "-> %v" [ArgString name]]))
                 Hall) as (evs & Hrun & Hinfo).
    exists (EvLog Info "-> %v" [ArgString name] :: evs). split.
    + simpl. simpl in Hrun. rewrite Hrun.
      unfold with_plugins, loaded_plugins. simpl. rewrite Hload. simpl.
      rewrite <- app_assoc. reflexivity.
    + constructor; [exact I|exact Hinfo].
Qed.

Lemma loadAdapters_each_run (dir : string) (enabled : list string) (s : State) :
  Forall (fun name => exists loaded,
              LoadAdapter (extension_file dir name) = inl loaded) enabled ->
  exists evs,
    loadAdapters_each dir enabled s =
    (Ok None,
     with_adapters s
       (register_adapters (loaded_adapters dir enabled) (adapters (eng s))) evs) /\
    Forall is_info evs.
Proof.
  revert s. induction enabled as [|name enabled IH]; intros s Hall.
  - exists []. split; [|constructor].
    simpl. rewrite with_adapters_id. reflexivity.
  - apply Forall_cons in Hall as [[loaded Hload] Hall].
    cbn [loadAdapters_each]. unfold mbind, M_bind, bind, logf at 1 2, emit.
    fold (extension_file dir name). rewrite Hload.
    unfold set_adapters, modify.
    destruct (IH (mkState
                    (mkEngine (rawIngressBuffer (eng s)) (ingressBuffer (eng s))
                              (egressBuffer (eng s)) (plugins (eng s))
                              (<[Adapter.Name loaded := loaded]> (adapters (eng s))))
                    ((trace s ++ [EvLog Info "-> %v" [ArgString name]]) ++
                     [EvLog Info "file: %s" [ArgString (extension_file dir name)]]))
                 Hall) as (evs & Hrun & Hinfo).
    exists (EvLog Info "-> %v" [ArgString name] ::
            EvLog Info "file: %s" [ArgString (extension_file dir name)] :: evs).
    split.
    + simpl. simpl in Hrun. rewrite Hrun.
      unfold with_adapters, loaded_adapters. simpl. rewrite Hload. simpl.
      rewrite <- !app_assoc. reflexivity.
    + repeat constructor; exact Hinfo.
Qed.

Lemma register_plugins_other (later : list Plugin.t)
    (m : gmap string Plugin.t) (name : string) :
  Forall (fun loaded => Plugin.Name loaded ≠ name) later ->
  register_plugins later m !! name = m !! name.
Proof.
  revert m. induction later as [|loaded later IH]; intros m Hall; [reflexivity|].
  apply Forall_cons in Hall as [Hne Hall].
  change (register_plugins (loaded :: later) m)
    with (register_plugins later (<[Plugin.Name loaded := loaded]> m)).
  rewrite IH by exact Hall.
  apply lookup_insert_ne. exact Hne.
Qed.

Lemma register_adapters_other (later : list Adapter.t)
    (m : gmap string Adapter.t) (name : string) :
  Forall (fun loaded => Adapter.Name loaded ≠ name) later ->
  register_adapters later m !! name = m !! name.
Proof.
  revert m. induction later as [|loaded later IH]; intros m Hall; [reflexivity|].
  apply Forall_cons in Hall as [Hne Hall].
  change (register_adapters (loaded :: later) m)
    with (register_adapters later (<[Adapter.Name loaded := loaded]> m)).
  rewrite IH by exact Hall.
  apply lookup_insert_ne. exact Hne.
Qed.

Lemma register_plugins_last (earlier later : list Plugin.t)
    (loaded : Plugin.t) (m : gmap string Plugin.t) :
  Forall (fun other => Plugin.Name other ≠ Plugin.Name loaded) later ->
  register_plugins (earlier ++ loaded :: later) m !! Plugin.Name loaded =
  Some loaded.
Proof.
  intros Hall. unfold register_plugins. rewrite foldl_app.
  change (foldl ?f ?a (loaded :: later))
    with (register_plugins later (f a loaded)).
  rewrite register_plugins_other by exact Hall.
  apply lookup_insert_eq.
Qed.

Lemma register_adapters_last (earlier later : list Adapter.t)
    (loaded : Adapter.t) (m : gmap string Adapter.t) :
  Forall (fun other => Adapter.Name other ≠ Adapter.Name loaded) later ->
  register_adapters (earlier ++ loaded :: later) m !! Adapter.Name loaded =
  Some loaded.
Proof.
  intros Hall. unfold register_adapters. rewrite foldl_app.
  change (foldl ?f ?a (loaded :: later))
    with (register_adapters later (f a loaded)).
  rewrite register_adapters_other by exact Hall.
  apply lookup_insert_eq.
Qed.

Lemma loadPlugins_run (c : Config.t) (s : State) :
  config_New = inl c ->
  Forall (fun name => exists loaded,
              LoadPlugin (extension_file
                            (ExtensionConfig.Dir (Config.GetPlugin c)) name) =
              inl loaded)
         (ExtensionConfig.Enabled (Config.GetPlugin c)) ->
  exists evs,
    loadPlugins s =
    (Ok None,
     with_plugins s
       (register_plugins
          (loaded_plugins (ExtensionConfig.Dir (Config.GetPlugin c))
                          (ExtensionConfig.Enabled (Config.GetPlugin c)))
          (plugins (eng s)))
       evs) /\
    Forall is_info evs.
Proof.
  intros Hconf Hall. unfold loadPlugins. rewrite Hconf.
  unfold mbind, M_bind, bind, logf at 1, emit.
  destruct (loadPlugins_each_run _ _
              (mkState (eng s)
                 (trace s ++
                  [EvLog Info "Loading plugins from: %v"
                     [ArgString (ExtensionConfig.Dir (Config.GetPlugin c))]]))
              Hall) as (evs & Hrun & Hinfo).
  rewrite Hrun. unfold logv, emit, gets. rewrite log_each_run.
  eexists. split.
  - unfold with_plugins, mret, M_ret, ret. simpl.
    rewrite <- !app_assoc. reflexivity.
  - apply Forall_app. split; [repeat constructor|].
    apply Forall_app. split; [exact Hinfo|].
    apply Forall_app. split; [repeat constructor|]. apply log_each_info.
Qed.

Lemma loadAdapters_run (c : Config.t) (s : State) :
  config_New = inl c ->
  Forall (fun name => exists loaded,
              LoadAdapter (extension_file
                             (ExtensionConfig.Dir (Config.GetAdapter c)) name) =
              inl loaded)
         (ExtensionConfig.Enabled (Config.GetAdapter c)) ->
  exists evs,
    loadAdapters s =
    (Ok None,
     with_adapters s
       (register_adapters
          (loaded_adapters (ExtensionConfig.Dir (Config.GetAdapter c))
                           (ExtensionConfig.Enabled (Config.GetAdapter c)))
          (adapters (eng s)))
       evs) /\
    Forall is_info evs.
Proof.
  intros Hconf Hall. unfold loadAdapters. rewrite Hconf.
  unfold mbind, M_bind, bind, logf at 1, emit.
  destruct (loadAdapters_each_run _ _
              (mkState (eng s)
                 (trace s ++
                  [EvLog Info "Loading adapters from: %v"
                     [ArgString (ExtensionConfig.Dir (Config.GetAdapter c))]]))
              Hall) as (evs & Hrun & Hinfo).
  rewrite Hrun. unfold logv, emit, gets. rewrite log_each_run.
  eexists. split.
  - unfold with_adapters, mret, M_ret, ret. simpl.
    rewrite <- !app_assoc. reflexivity.
  - apply Forall_app. split; [repeat constructor|].
    apply Forall_app. split; [exact Hinfo|].
    apply Forall_app. split; [repeat constructor|]. apply log_each_info.
Qed.

Lemma loaded_plugins_names (dir : string) (names : list string) (name : string) :
  Forall (fun n => forall loaded,
              LoadPlugin (extension_file dir n) = inl loaded ->
              Plugin.Name loaded ≠ name) names ->
  Forall (fun loaded => Plugin.Name loaded ≠ name) (loaded_plugins dir names).
Proof.
  induction 1 as [|n names Hn _ IH]; [constructor|].
  unfold loaded_plugins in *. cbn [omap list_omap].
  destruct (LoadPlugin (extension_file dir n)) as [loaded|err]; [|exact IH].
  constructor; [apply Hn; reflexivity|exact IH].
Qed.

Lemma loaded_adapters_names (dir : string) (names : list string) (name : string) :
  Forall (fun n => forall loaded,
              LoadAdapter (extension_file dir n) = inl loaded ->
              Adapter.Name loaded ≠ name) names ->
  Forall (fun loaded => Adapter.Name loaded ≠ name) (loaded_adapters dir names).
Proof.
  induction 1 as [|n names Hn _ IH]; [constructor|].
  unfold loaded_adapters in *. cbn [omap list_omap].
  destruct (LoadAdapter (extension_file dir n)) as [loaded|err]; [|exact IH].
  constructor; [apply Hn; reflexivity|exact IH].
Qed.

Lemma app_cons_assoc {A} (l1 l2 l3 : list A) (x : A) :
  l1 ++ x :: l2 ++ l3 = (l1 ++ x :: l2) ++ l3.
Proof. rewrite <- app_assoc. reflexivity. Qed.

Lemma loadPlugins_collision (c : Config.t) (s : State)
    (before between after : list string) (first second : string)
    (p1 p2 : Plugin.t) :
  let dir := ExtensionConfig.Dir (Config.GetPlugin c) in
  let enabled := ExtensionConfig.Enabled (Config.GetPlugin c) in
  config_New = inl c ->
  enabled = before ++ first :: between ++ second :: after ->
  Forall (fun name => exists loaded,
              LoadPlugin (extension_file dir name) = inl loaded) enabled ->
  LoadPlugin (extension_file dir first) = inl p1 ->
  LoadPlugin (extension_file dir second) = inl p2 ->
  Plugin.Name p1 = Plugin.Name p2 ->
  Forall (fun name => forall loaded,
              LoadPlugin (extension_file dir name) = inl loaded ->
              Plugin.Name loaded ≠ Plugin.Name p2) after ->
  exists ps evs,
    loadPlugins s = (Ok None, with_plugins s ps evs) /\
    ps !! Plugin.Name p1 = Some p2 /\
    Forall is_info evs.
Proof.
  intros dir enabled Hconf Henabled Hall Hfirst Hsecond Hname Hafter.
  destruct (loadPlugins_run c s Hconf Hall) as (evs & Hrun & Hinfo).
  eexists _, evs. split; [exact Hrun|]. split; [|exact Hinfo].
  fold dir enabled. rewrite Henabled, Hname.
  unfold loaded_plugins.
  rewrite omap_app. cbn [omap list_omap]. rewrite Hfirst.
  rewrite omap_app. cbn [omap list_omap]. rewrite Hsecond.
  rewrite app_cons_assoc.
  apply register_plugins_last, loaded_plugins_names, Hafter.
Qed.

Lemma loadAdapters_collision (c : Config.t) (s : State)
    (before between after : list string) (first second : string)
    (a1 a2 : Adapter.t) :
  let dir := ExtensionConfig.Dir (Config.GetAdapter c) in
  let enabled := ExtensionConfig.Enabled (Config.GetAdapter c) in
  config_New = inl c ->
  enabled = before ++ first :: between ++ second :: after ->
  Forall (fun name => exists loaded,
              LoadAdapter (extension_file dir name) = inl loaded) enabled ->
  LoadAdapter (extension_file dir first) = inl a1 ->
  LoadAdapter (extension_file dir second) = inl a2 ->
  Adapter.Name a1 = Adapter.Name a2 ->
  Forall (fun name => forall loaded,
              LoadAdapter (extension_file dir name) = inl loaded ->
              Adapter.Name loaded ≠ Adapter.Name a2) after ->
  exists ads evs,
    loadAdapters s = (Ok None, with_adapters s ads evs) /\
    ads !! Adapter.Name a1 = Some a2 /\
    Forall is_info evs.
Proof.
  intros dir enabled Hconf Henabled Hall Hfirst Hsecond Hname Hafter.
  destruct (loadAdapters_run c s Hconf Hall) as (evs & Hrun & Hinfo).
  eexists _, evs. split; [exact Hrun|]. split; [|exact Hinfo].
  fold dir enabled. rewrite Henabled, Hname.
  unfold loaded_adapters.
  rewrite omap_app. cbn [omap list_omap]. rewrite Hfirst.
  rewrite omap_app. cbn [omap list_omap]. rewrite Hsecond.
  rewrite app_cons_assoc.
  apply register_adapters_last, loaded_adapters_names, Hafter.
Qed.

(** C8.  When the enabled extensions all load and two of them report one
    name, loading returns no error, logs nothing above the info level,
    and the map holds, under that name, the later of the two (the last
    one loaded with this name): the earlier entry is overwritten.  This
    holds for [loadPlugins] and for [loadAdapters]. *)
Theorem load_name_collision_overrides
    (c : Config.t) (s : State)
    (before between after : list string) (first second : string) :
  config_New = inl c ->
  (forall p1 p2 : Plugin.t,
     let dir := ExtensionConfig.Dir (Config.GetPlugin c) in
     let enabled := ExtensionConfig.Enabled (Config.GetPlugin c) in
     enabled = before ++ first :: between ++ second :: after ->
     Forall (fun name => exists loaded,
                 LoadPlugin (extension_file dir name) = inl loaded) enabled ->
     LoadPlugin (extension_file dir first) = inl p1 ->
     LoadPlugin (extension_file dir second) = inl p2 ->
     Plugin.Name p1 = Plugin.Name p2 ->
     Forall (fun name => forall loaded,
                 LoadPlugin (extension_file dir name) = inl loaded ->
                 Plugin.Name loaded ≠ Plugin.Name p2) after ->
     exists ps evs,
       loadPlugins s = (Ok None, with_plugins s ps evs) /\
       ps !! Plugin.Name p1 = Some p2 /\
       Forall is_info evs) /\
  (forall a1 a2 : Adapter.t,
     let dir := ExtensionConfig.Dir (Config.GetAdapter c) in
     let enabled := ExtensionConfig.Enabled (Config.GetAdapter c) in
     enabled = before ++ first :: between ++ second :: after ->
     Forall (fun name => exists loaded,
                 LoadAdapter (extension_file dir name) = inl loaded) enabled ->
     LoadAdapter (extension_file dir first) = inl a1 ->
     LoadAdapter (extension_file dir second) = inl a2 ->
     Adapter.Name a1 = Adapter.Name a2 ->
     Forall (fun name => forall loaded,
                 LoadAdapter (extension_file dir name) = inl loaded ->
                 Adapter.Name loaded ≠ Adapter.Name a2) after ->
     exists ads evs,
       loadAdapters s = (Ok None, with_adapters s ads evs) /\
       ads !! Adapter.Name a1 = Some a2 /\
       Forall is_info evs).
Proof.
  intros Hconf. split.
  - intros p1 p2 dir enabled. apply loadPlugins_collision. exact Hconf.
  - intros a1 a2 dir enabled. apply loadAdapters_collision. exact Hconf.
Qed.

(** ** Bytes and characters: proofs *)

Lemma string_of_byte_length (b : Ascii.ascii) :
  (String.length (string_of_byte b) <= 2)%nat.
Proof. destruct b as [[] [] [] [] [] [] [] []]; vm_compute; lia. Qed.

Lemma encoderune_long_length (r : N) :
  rune2Max < r -> (3 <= String.length (encoderune r))%nat.
Proof.
  intros Hr. unfold encoderune.
  destruct (N.leb_spec r rune1Max) as [H1|_]; [unfold rune1Max, rune2Max in *; lia|].
  destruct (N.leb_spec r rune2Max) as [H2|_]; [lia|].
  destruct (_ || _); [cbn; lia|].
  destruct (r <=? rune3Max); cbn; lia.
Qed.

Lemma two_byte_check_all :
  forallb two_byte_check (N.of_nat <$> seq 128 1920) = true.
Proof. vm_compute. reflexivity. Qed.

Lemma two_byte_check_range (r : N) :
  rune1Max < r -> r <= rune2Max -> two_byte_check r = true.
Proof.
  intros Hlo Hhi. unfold rune1Max, rune2Max in *.
  pose proof two_byte_check_all as Hall.
  rewrite forallb_forall in Hall. apply Hall.
  rewrite <- (N2Nat.id r). apply in_map. apply in_seq. lia.
Qed.

Lemma multibyte_first_byte (r : N) :
  rune1Max < r ->
  exists b tail,
    encoderune r = String b tail /\ tail ≠ "" /\
    (string_of_byte b = encoderune r <-> r = 0xC3).
Proof.
  intros Hlo. destruct (N.leb_spec r rune2Max) as [Hhi|Hhi].
  - pose proof (two_byte_check_range r Hlo Hhi) as Hcheck.
    unfold two_byte_check in Hcheck.
    destruct (encoderune r) as [|b [|b' [|b'' tail]]]; try discriminate.
    exists b, (String b' ""). split; [reflexivity|]. split; [discriminate|].
    apply bool_decide_eq_true in Hcheck. exact Hcheck.
  - pose proof (encoderune_long_length r Hhi) as Hlen.
    destruct (encoderune r) as [|b [|b' tail]] eqn:Henc;
      [simpl in Hlen; lia|simpl in Hlen; lia|].
    exists b, (String b' tail). split; [reflexivity|]. split; [discriminate|].
    split.
    + intros Heq. pose proof (string_of_byte_length b) as Hb.
      rewrite Heq in Hb. lia.
    + intros ->. unfold rune2Max in Hhi. lia.
Qed.

Lemma string_app_cons (b : Ascii.ascii) (tail rest : string) :
  String b tail +:+ rest = String b (tail +:+ rest).
Proof. reflexivity. Qed.

Lemma string_app_length (s1 s2 : string) :
  String.length (s1 +:+ s2) = (String.length s1 + String.length s2)%nat.
Proof. induction s1 as [|b s1 IH]; simpl; [reflexivity|]. rewrite IH. reflexivity. Qed.

Lemma string_app_longer (tail rest : string) :
  tail ≠ "" -> tail +:+ rest ≠ rest.
Proof.
  intros Hne Heq. apply (f_equal String.length) in Heq.
  rewrite string_app_length in Heq.
  destruct tail; [contradiction|simpl in Heq; lia].
Qed.

(** C10, as amended.  On a non-empty content flagged as a command, the
    handler forwards exactly when the string made from the first byte
    (the UTF-8 encoding of the code point equal to that byte) equals the
    trigger prefix, and [parseRawContent] returns the content without
    its first byte.  Both work on bytes: of a content that starts with a
    character encoded on several bytes only the first byte is removed,
    never the character as a whole; and with that character as the
    trigger prefix the test fails, except for U+00C3, whose encoding
    is what the conversion of its first byte 0xC3 yields. *)
Theorem trigger_check_and_strip_are_bytewise :
  (forall (m : rawIngressBufferMsg.t) (s : State) (b : Ascii.ascii)
          (rest : string),
      let content :=
        RawIngressMessage.RawContent
          (rawIngressBufferMsg.RawIngressMessage m) in
      isCmd content = true ->
      content = String b rest ->
      parseRawContent content s = (Ok rest, s) /\
      handleRawIngress m s =
        if decide (string_of_byte b = adapterCmdTriggerPrefix)
        then send_ingressBuffer (forwarded m rest) s
        else (Ok tt,
              mkState (eng s)
                (trace s ++
                 [EvLog Warning
                    "raw content was flagged as a command, but does not contain trigger prefix, skipping..."
                    [];
                  EvLog Warning "%v" [ArgString content]]))) /\
  (forall (r : N) (rest : string) (s : State),
      valid_rune r ->
      rune1Max < r ->
      exists b tail,
        encoderune r +:+ rest = String b (tail +:+ rest) /\
        tail ≠ "" /\
        parseRawContent (encoderune r +:+ rest) s = (Ok (tail +:+ rest), s) /\
        tail +:+ rest ≠ rest /\
        (adapterCmdTriggerPrefix = encoderune r ->
         (trigger_ok (encoderune r +:+ rest) <-> r = 0xC3))).
Proof.
  split.
  - intros m s b rest content Hcmd Hcontent. split.
    + rewrite Hcontent. reflexivity.
    + rewrite handleRawIngress_cases. fold content. rewrite Hcmd.
      rewrite Hcontent at 1. reflexivity.
  - intros r rest s _ Hlo.
    destruct (multibyte_first_byte r Hlo) as (b & tail & Henc & Htail & Hiff).
    exists b, tail. rewrite Henc, string_app_cons.
    split; [reflexivity|]. split; [exact Htail|]. split; [reflexivity|].
    split; [apply string_app_longer; exact Htail|].
    rewrite Henc in Hiff.
    intros Htrigger. unfold trigger_ok. rewrite Htrigger. split.
    + intros (b' & rest' & Hb & Ht). injection Hb as <- <-.
      apply Hiff. exact Ht.
    + intros Hr. exists b, (tail +:+ rest). split; [reflexivity|].
      apply Hiff. exact Hr.
Qed.

(** ** The loaders on any configuration: proofs *)

Lemma with_plugins_plugins (s : State) ps evs :
  plugins (eng (with_plugins s ps evs)) = ps.
Proof. reflexivity. Qed.

Lemma loadPlugins_each_outcome (dir : string) (enabled : list string)
    (s : State) :
  loadPlugins_each dir enabled s =
  (Ok (first_plugin_error dir enabled),
   with_plugins s
     (register_plugins
        (loaded_plugins dir (attempted_plugins dir enabled))
        (plugins (eng s)))
     (plugin_lines (attempted_plugins dir enabled))).
Proof.
  revert s. induction enabled as [|name enabled IH]; intros s.
  - simpl. rewrite with_plugins_id. reflexivity.
  - cbn [loadPlugins_each attempted_plugins first_plugin_error].
    unfold mbind, M_bind, bind, logf at 1, emit.
    fold (extension_file dir name).
    destruct (LoadPlugin (extension_file dir name)) as [loaded|err] eqn:Hload.
    + unfold set_plugins, modify. rewrite IH.
      unfold with_plugins, loaded_plugins, plugin_lines. simpl.
      rewrite Hload. simpl. rewrite <- app_assoc. reflexivity.
    + unfold with_plugins, loaded_plugins, plugin_lines, mret, M_ret, ret.
      simpl. rewrite Hload. simpl. destruct s as [[raw ing eg ps ads] t].
      reflexivity.
Qed.

Lemma loadAdapters_each_outcome (dir : string) (enabled : list string)
    (s : State) :
  loadAdapters_each dir enabled s =
  (Ok (first_adapter_error dir enabled),
   with_adapters s
     (register_adapters
        (loaded_adapters dir (attempted_adapters dir enabled))
        (adapters (eng s)))
     (adapter_lines dir (attempted_adapters dir enabled))).
Proof.
  revert s. induction enabled as [|name enabled IH]; intros s.
  - simpl. rewrite with_adapters_id. reflexivity.
  - cbn [loadAdapters_each attempted_adapters first_adapter_error].
    unfold mbind, M_bind, bind, logf at 1 2, emit.
    fold (extension_file dir name).
    destruct (LoadAdapter (extension_file dir name)) as [loaded|err] eqn:Hload.
    + unfold set_adapters, modify. rewrite IH.
      unfold with_adapters, loaded_adapters, adapter_lines. simpl.
      rewrite Hload. simpl. rewrite <- !app_assoc. reflexivity.
    + unfold with_adapters, loaded_adapters, adapter_lines, mret, M_ret, ret.
      simpl. rewrite Hload. simpl. destruct s as [[raw ing eg ps ads] t].
      simpl. rewrite <- app_assoc. reflexivity.
Qed.

Lemma loadPlugins_outcome (c : Config.t) (s : State) :
  config_New = inl c ->
  loadPlugins s =
  (Ok (plugins_error c),
   with_plugins s (plugins_loaded_by c (plugins (eng s)))
     (EvLog Info "Loading plugins from: %v"
            [ArgString (ExtensionConfig.Dir (Config.GetPlugin c))] ::
      plugin_lines
        (attempted_plugins (ExtensionConfig.Dir (Config.GetPlugin c))
                           (ExtensionConfig.Enabled (Config.GetPlugin c))) ++
      match plugins_error c with
      | Some _ => []
      | None =>
          EvLog Info "%v" [ArgString "Successfully loaded plugins:"] ::
          ((fun entry : string * Plugin.t =>
              EvLog Info "-> %s" [ArgString entry.1])
             <$> range_map _ (plugins_loaded_by c (plugins (eng s))))
      end)).
Proof.
  intros Hconf. unfold loadPlugins. rewrite Hconf.
  unfold mbind, M_bind, bind, logf at 1, emit.
  rewrite loadPlugins_each_outcome.
  fold (plugins_error c). simpl eng. simpl plugins.
  fold (plugins_loaded_by c (plugins (eng s))).
  destruct (plugins_error c) as [err|].
  - unfold mret, M_ret, ret, with_plugins. simpl.
    rewrite app_nil_r, <- app_assoc. reflexivity.
  - unfold logv, emit, gets. rewrite log_each_run.
    unfold mret, M_ret, ret, with_plugins. simpl.
    rewrite <- !app_assoc. reflexivity.
Qed.

Lemma loadAdapters_outcome (c : Config.t) (s : State) :
  config_New = inl c ->
  loadAdapters s =
  (Ok (adapters_error c),
   with_adapters s (adapters_loaded_by c (adapters (eng s)))
     (EvLog Info "Loading adapters from: %v"
            [ArgString (ExtensionConfig.Dir (Config.GetAdapter c))] ::
      adapter_lines
        (ExtensionConfig.Dir (Config.GetAdapter c))
        (attempted_adapters (ExtensionConfig.Dir (Config.GetAdapter c))
                            (ExtensionConfig.Enabled (Config.GetAdapter c))) ++
      match adapters_error c with
      | Some _ => []
      | None =>
          EvLog Info "%v" [ArgString "Successfully loaded adapters:"] ::
          ((fun entry : string * Adapter.t =>
              EvLog Info "-> %s" [ArgString entry.1])
             <$> range_map _ (adapters_loaded_by c (adapters (eng s))))
      end)).
Proof.
  intros Hconf. unfold loadAdapters. rewrite Hconf.
  unfold mbind, M_bind, bind, logf at 1, emit.
  rewrite loadAdapters_each_outcome.
  fold (adapters_error c). simpl eng. simpl adapters.
  fold (adapters_loaded_by c (adapters (eng s))).
  destruct (adapters_error c) as [err|].
  - unfold mret, M_ret, ret, with_adapters. simpl.
    rewrite app_nil_r, <- app_assoc. reflexivity.
  - unfold logv, emit, gets. rewrite log_each_run.
    unfold mret, M_ret, ret, with_adapters. simpl.
    rewrite <- !app_assoc. reflexivity.
Qed.

Lemma loadPlugins_no_config (err : error) (s : State) :
  config_New = inr err -> loadPlugins s = (Ok (Some err), s).
Proof. intros Hconf. unfold loadPlugins. rewrite Hconf. reflexivity. Qed.

Lemma attempted_plugins_failure (dir : string) (before after : list string)
    (bad : string) (err : error) :
  Forall (fun name => exists loaded,
              LoadPlugin (extension_file dir name) = inl loaded) before ->
  LoadPlugin (extension_file dir bad) = inr err ->
  attempted_plugins dir (before ++ bad :: after) = before ++ [bad] /\
  first_plugin_error dir (before ++ bad :: after) = Some err /\
  loaded_plugins dir (before ++ [bad]) = loaded_plugins dir before.
Proof.
  intros Hbefore Hbad. induction Hbefore as [|name before [loaded Hload] _ IH].
  - unfold loaded_plugins.
    cbn [app attempted_plugins first_plugin_error omap list_omap].
    rewrite Hbad. repeat split.
  - destruct IH as (IH1 & IH2 & IH3). unfold loaded_plugins in *.
    rewrite <- !app_comm_cons.
    cbn [attempted_plugins first_plugin_error omap list_omap].
    rewrite Hload, IH1, IH2, IH3. repeat split.
Qed.

Lemma attempted_adapters_failure (dir : string) (before after : list string)
    (bad : string) (err : error) :
  Forall (fun name => exists loaded,
              LoadAdapter (extension_file dir name) = inl loaded) before ->
  LoadAdapter (extension_file dir bad) = inr err ->
  attempted_adapters dir (before ++ bad :: after) = before ++ [bad] /\
  first_adapter_error dir (before ++ bad :: after) = Some err /\
  loaded_adapters dir (before ++ [bad]) = loaded_adapters dir before.
Proof.
  intros Hbefore Hbad. induction Hbefore as [|name before [loaded Hload] _ IH].
  - unfold loaded_adapters.
    cbn [app attempted_adapters first_adapter_error omap list_omap].
    rewrite Hbad. repeat split.
  - destruct IH as (IH1 & IH2 & IH3). unfold loaded_adapters in *.
    rewrite <- !app_comm_cons.
    cbn [attempted_adapters first_adapter_error omap list_omap].
    rewrite Hload, IH1, IH2, IH3. repeat split.
Qed.

(** X1.  A loader stops at the first enabled extension that fails to load:
    it returns that extension's error, keeps in the map the extensions
    loaded before it (nothing is rolled back), logs the names up to and
    with the failing one, and neither tries the names after it nor logs a
    success.  This holds for [loadPlugins] and for [loadAdapters]. *)
Theorem loaders_stop_at_first_failure
    (c : Config.t) (s : State) (before after : list string) (bad : string)
    (err : error) :
  config_New = inl c ->
  (let dir := ExtensionConfig.Dir (Config.GetPlugin c) in
   ExtensionConfig.Enabled (Config.GetPlugin c) = before ++ bad :: after ->
   Forall (fun name => exists loaded,
               LoadPlugin (extension_file dir name) = inl loaded) before ->
   LoadPlugin (extension_file dir bad) = inr err ->
   loadPlugins s =
   (Ok (Some err),
    with_plugins s
      (register_plugins (loaded_plugins dir before) (plugins (eng s)))
      (EvLog Info "Loading plugins from: %v" [ArgString dir] ::
       plugin_lines (before ++ [bad])))) /\
  (let dir := ExtensionConfig.Dir (Config.GetAdapter c) in
   ExtensionConfig.Enabled (Config.GetAdapter c) = before ++ bad :: after ->
   Forall (fun name => exists loaded,
               LoadAdapter (extension_file dir name) = inl loaded) before ->
   LoadAdapter (extension_file dir bad) = inr err ->
   loadAdapters s =
   (Ok (Some err),
    with_adapters s
      (register_adapters (loaded_adapters dir before) (adapters (eng s)))
      (EvLog Info "Loading adapters from: %v" [ArgString dir] ::
       adapter_lines dir (before ++ [bad])))).
Proof.
  intros Hconf. split.
  - intros dir Henabled Hbefore Hbad.
    destruct (attempted_plugins_failure dir before after bad err Hbefore Hbad)
      as (Hatt & Herr & Hloaded).
    rewrite (loadPlugins_outcome c s Hconf).
    unfold plugins_error, plugins_loaded_by. fold dir.
    rewrite Henabled, Hatt, Herr, Hloaded, app_nil_r. reflexivity.
  - intros dir Henabled Hbefore Hbad.
    destruct (attempted_adapters_failure dir before after bad err Hbefore Hbad)
      as (Hatt & Herr & Hloaded).
    rewrite (loadAdapters_outcome c s Hconf).
    unfold adapters_error, adapters_loaded_by. fold dir.
    rewrite Henabled, Hatt, Herr, Hloaded, app_nil_r. reflexivity.
Qed.

Lemma plugin_lines_info (names : list string) : Forall is_info (plugin_lines names).
Proof. induction names; constructor; [exact I|assumption]. Qed.

Lemma adapter_lines_info (dir : string) (names : list string) :
  Forall is_info (adapter_lines dir names).
Proof.
  induction names as [|name names IH]; [constructor|].
  unfold adapter_lines in *. rewrite bind_cons.
  repeat constructor. exact IH.
Qed.

Lemma LoadExtensions_outcome (c : Config.t) (s : State) :
  config_New = inl c ->
  exists evs,
    LoadExtensions s =
    (Ok (match plugins_error c with
         | Some err => Some err
         | None => adapters_error c
         end),
     mkState
       (mkEngine (rawIngressBuffer (eng s)) (ingressBuffer (eng s))
                 (egressBuffer (eng s))
                 (plugins_loaded_by c (plugins (eng s)))
                 (match plugins_error c with
                  | Some _ => adapters (eng s)
                  | None => adapters_loaded_by c (adapters (eng s))
                  end))
       (trace s ++ evs)) /\
    Forall is_info evs.
Proof.
  intros Hconf. unfold LoadExtensions, mbind, M_bind, bind, logv, emit.
  rewrite (loadPlugins_outcome c _ Hconf). simpl eng. simpl plugins.
  destruct (plugins_error c) as [err|] eqn:Herr.
  - eexists. split.
    + unfold mret, M_ret, ret, with_plugins. simpl.
      rewrite <- app_assoc. reflexivity.
    + rewrite app_nil_r. repeat constructor. apply plugin_lines_info.
  - rewrite (loadAdapters_outcome c _ Hconf). eexists. split.
    + unfold with_adapters, with_plugins. simpl.
      rewrite <- !app_assoc. reflexivity.
    + repeat constructor. apply Forall_app. split.
      * apply Forall_app. split; [apply plugin_lines_info|].
        constructor; [exact I|]. apply log_each_info.
      * constructor; [exact I|]. apply Forall_app.
        split; [apply adapter_lines_info|].
        destruct (adapters_error c); [constructor|].
        constructor; [exact I|]. apply log_each_info.
Qed.

Lemma LoadExtensions_no_config (err : error) (s : State) :
  config_New = inr err ->
  LoadExtensions s =
  (Ok (Some err),
   mkState (eng s)
     (trace s ++ [EvLog Info "%v" [ArgString "Loading extensions"]])).
Proof.
  intros Hconf. unfold LoadExtensions, mbind, M_bind, bind, logv, emit.
  rewrite (loadPlugins_no_config err _ Hconf). reflexivity.
Qed.

(** X2.  [LoadExtensions] leaves the three message buffers as they were
    and adds to the log nothing but info lines, whether loading succeeds
    or stops on an error (the loaders of single extensions returning a
    value or an error). *)
Theorem LoadExtensions_keeps_buffers_and_logs_info (s : State) :
  exists evs : list Event,
    buffers (LoadExtensions s).2 = buffers s /\
    trace (LoadExtensions s).2 = trace s ++ evs /\
    Forall is_info evs.
Proof.
  destruct config_New as [c|err] eqn:Hconf.
  - destruct (LoadExtensions_outcome c s Hconf) as (evs & Hrun & Hinfo).
    rewrite Hrun. exists evs. repeat split. exact Hinfo.
  - rewrite (LoadExtensions_no_config err s Hconf).
    eexists. repeat split. repeat constructor.
Qed.


Lemma register_plugins_keyed (loaded : list Plugin.t)
    (m : gmap string Plugin.t) :
  plugins_keyed m -> plugins_keyed (register_plugins loaded m).
Proof.
  revert m. induction loaded as [|p loaded IH]; intros m Hm; [exact Hm|].
  change (register_plugins (p :: loaded) m)
    with (register_plugins loaded (<[Plugin.Name p := p]> m)).
  apply IH. intros key q Hq.
  apply lookup_insert_Some in Hq as [[<- <-]|[_ Hq]]; [reflexivity|].
  exact (Hm key q Hq).
Qed.

Lemma register_adapters_keyed (loaded : list Adapter.t)
    (m : gmap string Adapter.t) :
  adapters_keyed m -> adapters_keyed (register_adapters loaded m).
Proof.
  revert m. induction loaded as [|a loaded IH]; intros m Hm; [exact Hm|].
  change (register_adapters (a :: loaded) m)
    with (register_adapters loaded (<[Adapter.Name a := a]> m)).
  apply IH. intros key q Hq.
  apply lookup_insert_Some in Hq as [[<- <-]|[_ Hq]]; [reflexivity|].
  exact (Hm key q Hq).
Qed.

(** X4.  Extension loading keeps the registry keyed by name: when every
    plugin and every adapter of the maps is stored under the name it
    reports, so it is after [LoadExtensions], whether loading succeeds or
    stops on an error. *)
Theorem LoadExtensions_keeps_registry_keyed (s : State) :
  plugins_keyed (plugins (eng s)) ->
  adapters_keyed (adapters (eng s)) ->
  plugins_keyed (plugins (eng (LoadExtensions s).2)) /\
  adapters_keyed (adapters (eng (LoadExtensions s).2)).
Proof.
  intros Hps Hads. destruct config_New as [c|err] eqn:Hconf.
  - destruct (LoadExtensions_outcome c s Hconf) as (evs & Hrun & _).
    rewrite Hrun. simpl. split.
    + apply register_plugins_keyed. exact Hps.
    + destruct (plugins_error c); [exact Hads|].
      apply register_adapters_keyed. exact Hads.
  - rewrite (LoadExtensions_no_config err s Hconf). split; assumption.
Qed.

Lemma register_plugins_lookup (loaded : list Plugin.t)
    (m : gmap string Plugin.t) (name : string) :
  register_plugins loaded m !! name =
  match last (filter (fun p => Plugin.Name p = name) loaded) with
  | Some p => Some p
  | None => m !! name
  end.
Proof.
  revert m. induction loaded as [|p loaded IH]; intros m; [reflexivity|].
  change (register_plugins (p :: loaded) m)
    with (register_plugins loaded (<[Plugin.Name p := p]> m)).
  rewrite IH, filter_cons. case_decide as Hname.
  - rewrite last_cons.
    destruct (last (filter _ loaded)); [reflexivity|].
    rewrite Hname. apply lookup_insert_eq.
  - destruct (last (filter _ loaded)); [reflexivity|].
    apply lookup_insert_ne. exact Hname.
Qed.

Lemma register_adapters_lookup (loaded : list Adapter.t)
    (m : gmap string Adapter.t) (name : string) :
  register_adapters loaded m !! name =
  match last (filter (fun a => Adapter.Name a = name) loaded) with
  | Some a => Some a
  | None => m !! name
  end.
Proof.
  revert m. induction loaded as [|a loaded IH]; intros m; [reflexivity|].
  change (register_adapters (a :: loaded) m)
    with (register_adapters loaded (<[Adapter.Name a := a]> m)).
  rewrite IH, filter_cons. case_decide as Hname.
  - rewrite last_cons.
    destruct (last (filter _ loaded)); [reflexivity|].
    rewrite Hname. apply lookup_insert_eq.
  - destruct (last (filter _ loaded)); [reflexivity|].
    apply lookup_insert_ne. exact Hname.
Qed.

(** X5.  After a loader has run on a configuration that was read, the
    entry of the map under any name is the last extension, in the order of
    the enabled names it got to, that reported this name, and the entry the
    map had before when none did.  This holds for [loadPlugins] and for
    [loadAdapters]. *)
Theorem loaders_keep_last_of_each_name (c : Config.t) (s : State)
    (name : string) :
  config_New = inl c ->
  plugins (eng (loadPlugins s).2) !! name =
    match last (filter (fun p => Plugin.Name p = name)
                  (loaded_plugins
                     (ExtensionConfig.Dir (Config.GetPlugin c))
                     (attempted_plugins
                        (ExtensionConfig.Dir (Config.GetPlugin c))
                        (ExtensionConfig.Enabled (Config.GetPlugin c)))))
    with
    | Some p => Some p
    | None => plugins (eng s) !! name
    end /\
  adapters (eng (loadAdapters s).2) !! name =
    match last (filter (fun a => Adapter.Name a = name)
                  (loaded_adapters
                     (ExtensionConfig.Dir (Config.GetAdapter c))
                     (attempted_adapters
                        (ExtensionConfig.Dir (Config.GetAdapter c))
                        (ExtensionConfig.Enabled (Config.GetAdapter c)))))
    with
    | Some a => Some a
    | None => adapters (eng s) !! name
    end.
Proof.
  intros Hconf.
  rewrite (loadPlugins_outcome c s Hconf), (loadAdapters_outcome c s Hconf).
  split.
  - apply register_plugins_lookup.
  - apply register_adapters_lookup.
Qed.

Lemma register_plugins_twice (loaded : list Plugin.t)
    (m : gmap string Plugin.t) :
  register_plugins loaded (register_plugins loaded m) =
  register_plugins loaded m.
Proof.
  apply map_eq. intros name. rewrite !register_plugins_lookup.
  destruct (last _); reflexivity.
Qed.

Lemma register_adapters_twice (loaded : list Adapter.t)
    (m : gmap string Adapter.t) :
  register_adapters loaded (register_adapters loaded m) =
  register_adapters loaded m.
Proof.
  apply map_eq. intros name. rewrite !register_adapters_lookup.
  destruct (last _); reflexivity.
Qed.

(** X6.  Loading again changes nothing in the registry: on a
    configuration that was read, running [loadPlugins] (or [loadAdapters])
    a second time leaves the map the first run left. *)
Theorem loaders_are_idempotent_on_registry (c : Config.t) (s : State) :
  config_New = inl c ->
  plugins (eng (loadPlugins (loadPlugins s).2).2) =
    plugins (eng (loadPlugins s).2) /\
  adapters (eng (loadAdapters (loadAdapters s).2).2) =
    adapters (eng (loadAdapters s).2).
Proof.
  intros Hconf.
  rewrite !(loadPlugins_outcome c _ Hconf), !(loadAdapters_outcome c _ Hconf).
  split.
  - apply register_plugins_twice.
  - apply register_adapters_twice.
Qed.

(** ** The life cycle: proofs *)

Lemma listen_each_run (entries : list (string * Adapter.t)) (s : State) :
  for_each entries (fun entry => emit (EvListen entry.2)) s =
  (Ok tt, mkState (eng s) (trace s ++ map EvListen (map snd entries))).
Proof.
  revert s. induction entries as [|entry entries IH]; intros s.
  - simpl. rewrite app_nil_r. destruct s; reflexivity.
  - cbn [for_each]. unfold mbind, M_bind, bind, emit at 1.
    rewrite IH. simpl. rewrite <- app_assoc. reflexivity.
Qed.

Lemma Start_listen_run (s : State) :
  Start_listen s =
  (Ok tt,
   mkState (eng s)
     (trace s ++ map EvListen (map snd (range_map _ (adapters (eng s)))))).
Proof.
  unfold Start_listen, mbind, M_bind, bind, gets. apply listen_each_run.
Qed.

Lemma listening_of_keyed (s : State) :
  adapters_keyed (adapters (eng s)) ->
  listening_registered (map snd (range_map _ (adapters (eng s)))) s.
Proof.
  intros Hkeyed adapter Hin.
  apply list_elem_of_In, in_map_iff in Hin as ([key a] & Ha & Hin).
  simpl in Ha. subst a. apply list_elem_of_In in Hin.
  rewrite range_map_perm in Hin. apply elem_of_map_to_list in Hin.
  rewrite (Hkeyed key adapter Hin). exact Hin.
Qed.

(** X7.  The first loop of [Start] asks every registered adapter to
    listen, each exactly once (in the order [range] takes), and changes
    nothing in the engine; in a registry keyed by name every adapter that
    listens is the one registered under its own name. *)
Theorem Start_listen_asks_every_adapter (s : State) :
  let listening := map snd (range_map _ (adapters (eng s))) in
  Start_listen s =
    (Ok tt, mkState (eng s) (trace s ++ map EvListen listening)) /\
  listening ≡ₚ map snd (map_to_list (adapters (eng s))) /\
  (adapters_keyed (adapters (eng s)) -> listening_registered listening s).
Proof.
  intros listening. split; [apply Start_listen_run|]. split.
  - unfold listening. apply Permutation_map, range_map_perm.
  - apply listening_of_keyed.
Qed.

Lemma routable_same (s s' : State) (name : string) :
  adapters (eng s') = adapters (eng s) -> routable s name -> routable s' name.
Proof. unfold routable. intros ->. exact id. Qed.

Lemma buffers_routable_intro (s : State) raw ing eg evs :
  Forall (fun m => routable s (rawIngressBufferMsg.AdapterName m)) raw ->
  Forall (fun m => routable s
                     (Originator.AdapterName
                        (IngressMessage.Originator
                           (ingressBufferMsg.IngressMessage m)))) ing ->
  Forall (fun m => routable s
                     (Originator.AdapterName (egressBufferMsg.Originator m)))
         eg ->
  buffers_routable
    (mkState (mkEngine raw ing eg (plugins (eng s)) (adapters (eng s))) evs).
Proof. intros Hraw Hing Heg. repeat split; assumption. Qed.

Lemma step_buffers_routable (listening : list Adapter.t) (s : State)
    (out : Res unit * State) :
  listening_registered listening s ->
  buffers_routable s ->
  step listening s out ->
  buffers_routable out.2.
Proof.
  intros Hlisten (Hraw & Hing & Heg) Hstep.
  destruct Hstep as [s adapter rim Hin|s m s' Hrecv|s m s' Hrecv|s m s' Hrecv].
  - apply (buffers_routable_intro s); [|assumption|assumption].
    apply Forall_app. split; [exact Hraw|]. constructor; [|constructor].
    simpl. unfold routable. rewrite (Hlisten adapter Hin). eexists; reflexivity.
  - unfold recv_rawIngressBuffer in Hrecv.
    destruct (rawIngressBuffer (eng s)) as [|m' q] eqn:Hq; [discriminate|].
    injection Hrecv as -> <-. apply Forall_cons in Hraw as [Hm Hraw].
    rewrite handleRawIngress_cases.
    destruct (isCmd _);
      [|apply (buffers_routable_intro s); assumption].
    destruct (RawIngressMessage.RawContent _) as [|b rest];
      [apply (buffers_routable_intro s); assumption|].
    destruct (decide _);
      [|apply (buffers_routable_intro s); assumption].
    apply (buffers_routable_intro s); [assumption| |assumption].
    apply Forall_app. split; [exact Hing|]. constructor; [exact Hm|constructor].
  - unfold recv_ingressBuffer in Hrecv.
    destruct (ingressBuffer (eng s)) as [|m' q] eqn:Hq; [discriminate|].
    injection Hrecv as -> <-. apply Forall_cons in Hing as [Hm Hing].
    rewrite handleIngress_run.
    apply (buffers_routable_intro s); [assumption|assumption|].
    apply Forall_app. split; [exact Heg|].
    eapply Forall_impl; [apply egress_of_originator|].
    intros ebm [Ho _]. simpl. rewrite Ho. exact Hm.
  - unfold recv_egressBuffer in Hrecv.
    destruct (egressBuffer (eng s)) as [|m' q] eqn:Hq; [discriminate|].
    injection Hrecv as -> <-. apply Forall_cons in Heg as [Hm Heg].
    rewrite handleEgress_run. simpl.
    destruct (adapters (eng s) !! _);
      apply (buffers_routable_intro s); assumption.
Qed.

Lemma run_buffers_routable (listening : list Adapter.t) (s s' : State) :
  listening_registered listening s ->
  buffers_routable s ->
  run listening s s' ->
  buffers_routable s' /\ listening_registered listening s'.
Proof.
  intros Hlisten Hbuf Hrun. induction Hrun as [s|s s' s'' Hstep _ IH].
  - split; assumption.
  - apply IH.
    + pose proof (step_registry _ _ _ Hstep) as Hreg.
      injection Hreg as _ Hads. intros adapter Hin. simpl in Hads.
      rewrite Hads. exact (Hlisten adapter Hin).
    + exact (step_buffers_routable _ _ _ Hlisten Hbuf Hstep).
Qed.

(** X8.  The run phase keeps every buffered message routable: when the
    adapters that listen are registered under their names and every
    message in the three buffers names a registered adapter, the same
    holds after any run of the dispatch loop, and after one more step even
    if that step panics. *)
Theorem run_keeps_buffers_routable (listening : list Adapter.t)
    (s s' : State) (out : Res unit * State) :
  listening_registered listening s ->
  buffers_routable s ->
  run listening s s' ->
  step listening s' out ->
  buffers_routable s' /\ listening_registered listening s' /\
  buffers_routable out.2.
Proof.
  intros Hlisten Hbuf Hrun Hstep.
  destruct (run_buffers_routable _ _ _ Hlisten Hbuf Hrun) as [Hbuf' Hlisten'].
  split; [exact Hbuf'|]. split; [exact Hlisten'|].
  exact (step_buffers_routable _ _ _ Hlisten' Hbuf' Hstep).
Qed.


Lemma Start_prologue_run (s : State) :
  (logv Debug "Engine::Start";; Start_listen) s =
  (Ok tt,
   mkState (eng s)
     (trace s ++
      EvLog Debug "%v" [ArgString "Engine::Start"] ::
      map EvListen (map snd (range_map _ (adapters (eng s)))))).
Proof.
  unfold mbind, M_bind, bind, logv, emit. rewrite Start_listen_run. simpl.
  rewrite <- app_assoc. reflexivity.
Qed.

Lemma panic_sites_unreached (s : State) :
  isCmd "" = false ->
  buffers_routable s ->
  (forall m s0,
      recv_rawIngressBuffer s = Some (m, s0) ->
      (handleRawIngress m s0).1 = Ok tt) /\
  (forall ebm s0,
      recv_egressBuffer s = Some (ebm, s0) ->
      exists adapter,
        adapters (eng s0) !!
          Originator.AdapterName (egressBufferMsg.Originator ebm) =
          Some adapter /\
        handleEgress ebm s0 =
          (Ok tt,
           mkState (eng s0)
             (trace s0 ++
              [EvLog Debug "Engine::handleEgress: %+v" [ArgEgress ebm];
               EvSendMessage adapter (egressBufferMsg.EgressMessage ebm)]))).
Proof.
  intros Hempty (_ & _ & Heg). split.
  - intros m s0 _. rewrite handleRawIngress_cases.
    destruct (RawIngressMessage.RawContent _) as [|b rest].
    + rewrite Hempty. reflexivity.
    + destruct (isCmd (String b rest)); [|reflexivity].
      destruct (decide _); reflexivity.
  - intros ebm s0 Hrecv. unfold recv_egressBuffer in Hrecv.
    destruct (egressBuffer (eng s)) as [|m' q] eqn:Hq; [discriminate|].
    injection Hrecv as -> <-. apply Forall_cons in Heg as [[a Ha] _].
    exists a. split; [exact Ha|].
    rewrite handleEgress_run. simpl. rewrite Ha. reflexivity.
Qed.

(** X9.  In a state the dispatch loop reaches, neither of the two panic
    sites of engine.go is reached.  From a state whose listening adapters
    are registered under their names and whose buffered messages all name
    a registered adapter, after any run: handling the raw message at the
    head of its buffer returns, provided the classifier never flags the
    empty string; and dispatching the egress message at the head of its
    buffer finds the adapter registered under the originator's name and
    makes one [SendMessage] on it.  (What handlers, the pattern search and
    the adapters do inside their own code is not part of this.) *)
Theorem dispatch_reaches_no_panic_site (listening : list Adapter.t)
    (s s' : State) :
  isCmd "" = false ->
  listening_registered listening s ->
  buffers_routable s ->
  run listening s s' ->
  (forall m s0,
      recv_rawIngressBuffer s' = Some (m, s0) ->
      (handleRawIngress m s0).1 = Ok tt) /\
  (forall ebm s0,
      recv_egressBuffer s' = Some (ebm, s0) ->
      exists adapter,
        adapters (eng s0) !!
          Originator.AdapterName (egressBufferMsg.Originator ebm) =
          Some adapter /\
        handleEgress ebm s0 =
          (Ok tt,
           mkState (eng s0)
             (trace s0 ++
              [EvLog Debug "Engine::handleEgress: %+v" [ArgEgress ebm];
               EvSendMessage adapter (egressBufferMsg.EgressMessage ebm)]))).
Proof.
  intros Hempty Hlisten Hbuf Hrun.
  destruct (run_buffers_routable _ _ _ Hlisten Hbuf Hrun) as [Hbuf' _].
  exact (panic_sites_unreached s' Hempty Hbuf').
Qed.

Lemma LoadExtensions_keyed (s : State) :
  plugins_keyed (plugins (eng s)) ->
  adapters_keyed (adapters (eng s)) ->
  adapters_keyed (adapters (eng (LoadExtensions s).2)).
Proof.
  intros Hps Hads. destruct config_New as [c|err] eqn:Hconf.
  - destruct (LoadExtensions_outcome c s Hconf) as (evs & Hrun & _).
    rewrite Hrun. simpl.
    destruct (plugins_error c); [exact Hads|].
    apply register_adapters_keyed. exact Hads.
  - rewrite (LoadExtensions_no_config err s Hconf). assumption.
Qed.

Lemma LoadExtensions_buffers (s : State) :
  buffers (LoadExtensions s).2 = buffers s.
Proof.
  destruct config_New as [c|err] eqn:Hconf.
  - destruct (LoadExtensions_outcome c s Hconf) as (evs & Hrun & _).
    rewrite Hrun. reflexivity.
  - rewrite (LoadExtensions_no_config err s Hconf). reflexivity.
Qed.

(** X10.  An engine made by [NewEngine], loaded by [LoadExtensions]
    (whether loading succeeded or not) and started by [Start] reaches
    neither of the two panic sites of engine.go, whatever the adapters
    relay: in every state [Start] reaches, handling the raw message at the
    head of its buffer returns, provided the classifier never flags the
    empty string, and dispatching the egress message at the head of its
    buffer finds the adapter registered under the originator's name and
    makes one [SendMessage] on it.  (What handlers, the pattern search and
    the adapters do inside their own code is not part of this.) *)
Theorem started_engine_reaches_no_panic_site (e : Engine) (s1 s2 : State) :
  isCmd "" = false ->
  NewEngine = Ok e ->
  (LoadExtensions (mkState e [])).2 = s1 ->
  Start s1 s2 ->
  (forall m s0,
      recv_rawIngressBuffer s2 = Some (m, s0) ->
      (handleRawIngress m s0).1 = Ok tt) /\
  (forall ebm s0,
      recv_egressBuffer s2 = Some (ebm, s0) ->
      exists adapter,
        adapters (eng s0) !!
          Originator.AdapterName (egressBufferMsg.Originator ebm) =
          Some adapter /\
        handleEgress ebm s0 =
          (Ok tt,
           mkState (eng s0)
             (trace s0 ++
              [EvLog Debug "Engine::handleEgress: %+v" [ArgEgress ebm];
               EvSendMessage adapter (egressBufferMsg.EgressMessage ebm)]))).
Proof.
  intros Hempty Hnew Hload (s' & Hlisten & Hrun).
  assert (He : e = mkEngine [] [] [] ∅ ∅).
  { unfold NewEngine in Hnew. destruct config_New; congruence. }
  subst e.
  assert (Hkeyed : adapters_keyed (adapters (eng s1))).
  { rewrite <- Hload. apply LoadExtensions_keyed; intros key loaded Hl;
      simpl in Hl; rewrite lookup_empty in Hl; discriminate. }
  assert (Hbuf : buffers s1 = ([], [], [])).
  { rewrite <- Hload. apply LoadExtensions_buffers. }
  rewrite Start_prologue_run in Hlisten. injection Hlisten as <-.
  pose proof (listening_of_keyed s1 Hkeyed) as Hl.
  injection Hbuf as Hraw Hing Heg.
  apply panic_sites_unreached; [exact Hempty|].
  eapply run_buffers_routable; [| |exact Hrun].
  - exact Hl.
  - unfold buffers_routable. simpl. rewrite Hraw, Hing, Heg.
    repeat split; constructor.
Qed.

(** X11.  The reply to a command leaves through the adapter the command
    came in on, on the channel it came from: for a raw message relayed for
    [adapter] that passes the filter, the one ingress message forwarded,
    dispatched in any state, queues only egress messages that the egress
    dispatcher, in any state where [adapter] is registered under its name,
    sends by one [SendMessage] on [adapter] itself, with the channel of the
    raw message. *)
Theorem reply_leaves_through_originating_adapter
    (adapter : Adapter.t) (rim : RawIngressMessage.t) (s s1 s2 : State)
    (b : Ascii.ascii) (rest : string) :
  let m := rawIngressBufferMsg.mk (Adapter.Name adapter) rim in
  isCmd (RawIngressMessage.RawContent rim) = true ->
  RawIngressMessage.RawContent rim = String b rest ->
  string_of_byte b = adapterCmdTriggerPrefix ->
  adapters (eng s2) !! Adapter.Name adapter = Some adapter ->
  exists (ibm : ingressBufferMsg.t) (evs : list Event)
         (egs : list egressBufferMsg.t),
    ingressBuffer (eng (handleRawIngress m s).2) =
      ingressBuffer (eng s) ++ [ibm] /\
    handleIngress ibm s1 = (Ok tt, with_egress s1 egs evs) /\
    Forall
      (fun ebm =>
         EgressMessage.ChannelID (egressBufferMsg.EgressMessage ebm) =
           RawIngressMessage.ChannelID rim /\
         handleEgress ebm s2 =
           (Ok tt,
            mkState (eng s2)
              (trace s2 ++
               [EvLog Debug "Engine::handleEgress: %+v" [ArgEgress ebm];
                EvSendMessage adapter (egressBufferMsg.EgressMessage ebm)])))
      egs.
Proof.
  intros m Hcmd Hcontent Htrigger Hreg.
  exists (forwarded m rest). eexists _, _. split; [|split].
  - rewrite handleRawIngress_cases. simpl. rewrite Hcmd, Hcontent.
    rewrite decide_True by exact Htrigger. reflexivity.
  - apply handleIngress_run.
  - eapply Forall_impl; [apply egress_of_originator|].
    intros ebm [Ho Hc]. split; [exact Hc|].
    rewrite handleEgress_run, Ho. simpl. rewrite Hreg. reflexivity.
Qed.

Lemma egress_contents (im : IngressMessage.t) (cms : list cmdMatch.t) :
  (fun ebm => EgressMessage.Content (egressBufferMsg.EgressMessage ebm)) <$>
    (cms ≫= (fun cm => egress_of im (run_match im cm).2)) =
  filter (fun response => response ≠ "")
    ((fun call : CmdDelegate.t * CmdDelegate.t => CmdDelegate.response call.2)
       <$> (run_match im <$> cms)).
Proof.
  induction cms as [|cm cms IH]; [reflexivity|].
  rewrite bind_cons, fmap_app, IH, !fmap_cons, filter_cons.
  unfold egress_of. case_bool_decide; case_decide; try contradiction;
    reflexivity.
Qed.

Lemma invocation_delegates (im : IngressMessage.t) (links : list CmdLink.t) :
  Forall
    (fun call : CmdDelegate.t * CmdDelegate.t =>
       CmdDelegate.Submatches call.1 ≠ [] /\
       CmdDelegate.response call.1 = "" /\
       CmdDelegate.IngressMessage call.1 = im)
    (invocation im <$>
       filter (matches_content (IngressMessage.Content im)) links).
Proof.
  apply Forall_fmap, Forall_forall. intros link Hin.
  apply list_elem_of_filter in Hin as [Hmatch _].
  unfold matches_content in Hmatch. simpl. repeat split.
  intros Hnil. rewrite Hnil in Hmatch. simpl in Hmatch. lia.
Qed.

(** X12.  The dispatcher invokes the handlers in the order [range] visits
    the plugins and their patterns, one for each matching pattern; each
    handler is handed a delegate of its own, with a non-empty list of
    submatches, an empty response and the ingress message; and the replies
    are queued in the order of the invocations: the contents of the egress
    messages are the non-empty responses, in that order. *)
Theorem handlers_run_in_range_order (ibm : ingressBufferMsg.t) (s : State) :
  let im := ingressBufferMsg.IngressMessage ibm in
  exists (evs : list Event) (egs : list egressBufferMsg.t),
    handleIngress ibm s = (Ok tt, with_egress s egs evs) /\
    invocations evs =
      invocation im <$>
        filter (matches_content (IngressMessage.Content im))
               (cmdLinks_ranged (eng s)) /\
    Forall
      (fun call : CmdDelegate.t * CmdDelegate.t =>
         CmdDelegate.Submatches call.1 ≠ [] /\
         CmdDelegate.response call.1 = "" /\
         CmdDelegate.IngressMessage call.1 = im)
      (invocations evs) /\
    (fun ebm => EgressMessage.Content (egressBufferMsg.EgressMessage ebm))
      <$> egs =
    filter (fun response => response ≠ "")
      ((fun call : CmdDelegate.t * CmdDelegate.t =>
          CmdDelegate.response call.2) <$> invocations evs).
Proof.
  intros im. eexists _, _. split; [apply handleIngress_run|]. fold im.
  assert (Hinv :
    invocations
      (EvLog Debug "Engine::handleIngress: %+v" [ArgIngress im] ::
       ((fun cm => EvCmdFn (run_match im cm).1 (run_match im cm).2) <$>
        (to_match (IngressMessage.Content im) <$>
         filter (matches_content (IngressMessage.Content im))
                (cmdLinks_ranged (eng s))))) =
    invocation im <$>
      filter (matches_content (IngressMessage.Content im))
             (cmdLinks_ranged (eng s))).
  { change (invocations (?ev :: ?l)) with (invocations l).
    rewrite invocations_calls. apply run_match_to_match. }
  rewrite Hinv. split; [reflexivity|]. split.
  - apply invocation_delegates.
  - rewrite egress_contents, run_match_to_match. reflexivity.
Qed.

Lemma filter_none {A} (P : A -> Prop) `{!forall x, Decision (P x)}
    (l : list A) :
  Forall (fun x => ~ P x) l -> filter P l = [].
Proof.
  induction 1 as [|x l Hx _ IH]; [reflexivity|].
  rewrite filter_cons, IH. case_decide; [contradiction|reflexivity].
Qed.

(** X13.  An ingress message that no pattern of any loaded plugin matches
    is consumed without effect: no handler is invoked and nothing is
    queued, only the debug line is logged.  So it is in particular with no
    plugin loaded. *)
Theorem handleIngress_without_match (ibm : ingressBufferMsg.t) (s : State) :
  let im := ingressBufferMsg.IngressMessage ibm in
  let unchanged :=
    handleIngress ibm s =
      (Ok tt,
       mkState (eng s)
         (trace s ++
          [EvLog Debug "Engine::handleIngress: %+v" [ArgIngress im]])) in
  (Forall (fun cmdLink => ~ matches_content (IngressMessage.Content im) cmdLink)
          (cmdLinks (eng s)) -> unchanged) /\
  (plugins (eng s) = ∅ -> unchanged).
Proof.
  intros im unchanged.
  assert (Hmain :
    Forall (fun cmdLink => ~ matches_content (IngressMessage.Content im) cmdLink)
           (cmdLinks (eng s)) -> unchanged).
  { intros Hnone. unfold unchanged. rewrite handleIngress_run. fold im.
    rewrite <- cmdLinks_ranged_perm in Hnone.
    rewrite (filter_none _ _ Hnone). simpl.
    destruct s as [[raw ing eg ps ads] t]. unfold with_egress. simpl.
    rewrite app_nil_r. reflexivity. }
  split; [exact Hmain|].
  intros Hempty. apply Hmain. unfold cmdLinks. rewrite Hempty.
  rewrite map_to_list_empty. constructor.
Qed.

(** ** The trigger prefix: proofs *)

Lemma string_of_byte_nonempty (b : Ascii.ascii) :
  (1 <= String.length (string_of_byte b))%nat.
Proof. destruct b as [[] [] [] [] [] [] [] []]; vm_compute; lia. Qed.

Lemma string_of_byte_single (b : Ascii.ascii) :
  String.length (string_of_byte b) = 1%nat -> string_of_byte b = String b "".
Proof.
  destruct b as [[] [] [] [] [] [] [] []]; vm_compute; intros H;
    first [reflexivity|discriminate].
Qed.

(** X14.  The trigger test can pass only for a trigger prefix that is the
    encoding of one code point below U+0100, hence one or two bytes long:
    with an empty trigger prefix, or one longer than two bytes (a prefix of
    several characters, say), no raw message is ever forwarded. *)
Theorem trigger_prefix_must_be_short :
  (forall content,
      trigger_ok content ->
      exists n, n < 256 /\ adapterCmdTriggerPrefix = encoderune n /\
                (1 <= String.length adapterCmdTriggerPrefix <= 2)%nat) /\
  (adapterCmdTriggerPrefix = "" \/
   (2 < String.length adapterCmdTriggerPrefix)%nat ->
   forall m s,
     ingressBuffer (eng (handleRawIngress m s).2) = ingressBuffer (eng s)).
Proof.
  assert (Hshort : forall content,
      trigger_ok content ->
      exists n, n < 256 /\ adapterCmdTriggerPrefix = encoderune n /\
                (1 <= String.length adapterCmdTriggerPrefix <= 2)%nat).
  { intros content (b & rest & _ & Hb). exists (Ascii.N_of_ascii b).
    split; [apply Ascii.N_ascii_bounded|]. split; [symmetry; exact Hb|].
    rewrite <- Hb. split.
    - apply string_of_byte_nonempty.
    - apply string_of_byte_length. }
  split; [exact Hshort|].
  intros Hbad m s. rewrite handleRawIngress_cases.
  destruct (isCmd _); [|reflexivity].
  destruct (RawIngressMessage.RawContent _) as [|b rest] eqn:Hcontent;
    [reflexivity|].
  destruct (decide _) as [Heq|_]; [|reflexivity].
  destruct (Hshort (String b rest)) as (n & _ & _ & Hlen).
  { exists b, rest. split; [reflexivity|exact Heq]. }
  destruct Hbad as [Hbad|Hbad]; [rewrite Hbad in Hlen; simpl in Hlen|]; lia.
Qed.

(** X15.  What is forwarded is the raw content less one byte.  With a
    trigger prefix of one byte, putting the prefix back in front of the
    forwarded content gives the raw content again; with a trigger prefix
    of two bytes it does not, the result being one byte longer. *)
Theorem forwarded_content_restores_raw
    (m : rawIngressBufferMsg.t) (s : State) :
  let content :=
    RawIngressMessage.RawContent (rawIngressBufferMsg.RawIngressMessage m) in
  isCmd content = true ->
  trigger_ok content ->
  exists c,
    handleRawIngress m s = send_ingressBuffer (forwarded m c) s /\
    String.length content = S (String.length c) /\
    (String.length adapterCmdTriggerPrefix = 1%nat ->
     content = adapterCmdTriggerPrefix +:+ c) /\
    (String.length adapterCmdTriggerPrefix = 2%nat ->
     String.length (adapterCmdTriggerPrefix +:+ c) =
     S (String.length content)).
Proof.
  intros content Hcmd (b & rest & Hcontent & Hb). exists rest.
  split; [|split; [|split]].
  - rewrite handleRawIngress_cases. fold content. rewrite Hcmd, Hcontent.
    rewrite decide_True by exact Hb. reflexivity.
  - rewrite Hcontent. reflexivity.
  - intros Hlen. rewrite <- Hb in Hlen.
    rewrite <- Hb, (string_of_byte_single b Hlen), Hcontent. reflexivity.
  - intros Hlen. rewrite string_app_length, Hlen, Hcontent. reflexivity.
Qed.

(** X16.  With no adapter registered and empty buffers, a started engine
    stays idle: [Start] logs its debug line, spawns no listener, and the
    dispatch loop has no step to take, so nothing else ever happens. *)
Theorem Start_without_adapters_is_idle (s s' : State) :
  adapters (eng s) = ∅ ->
  buffers s = ([], [], []) ->
  Start s s' ->
  s' = mkState (eng s)
         (trace s ++ [EvLog Debug "%v" [ArgString "Engine::Start"]]).
Proof.
  intros Hads Hbuf (s1 & Hlisten & Hrun).
  rewrite Start_prologue_run in Hlisten. injection Hlisten as <-.
  assert (Hnone : range_map Adapter.t (adapters (eng s)) = []).
  { apply Permutation_nil. symmetry. rewrite range_map_perm, Hads.
    rewrite map_to_list_empty. reflexivity. }
  rewrite Hnone in Hrun. simpl in Hrun.
  injection Hbuf as Hraw Hing Heg.
  remember (mkState (eng s)
              (trace s ++ [EvLog Debug "%v" [ArgString "Engine::Start"]]))
    as s0 eqn:Hs0.
  assert (Hraw0 : rawIngressBuffer (eng s0) = []) by (subst s0; exact Hraw).
  assert (Hing0 : ingressBuffer (eng s0) = []) by (subst s0; exact Hing).
  assert (Heg0 : egressBuffer (eng s0) = []) by (subst s0; exact Heg).
  clear Hs0.
  destruct Hrun as [s0|s0 s2 s3 Hstep _]; [reflexivity|].
  exfalso. inversion Hstep as [s4 adapter rim Hin|s4 m s4' Hrecv|
                               s4 m s4' Hrecv|s4 m s4' Hrecv]; subst.
  - inversion Hin.
  - unfold recv_rawIngressBuffer in Hrecv. rewrite Hraw0 in Hrecv. discriminate.
  - unfold recv_ingressBuffer in Hrecv. rewrite Hing0 in Hrecv. discriminate.
  - unfold recv_egressBuffer in Hrecv. rewrite Heg0 in Hrecv. discriminate.
Qed.

End Engine.

(** ** The properties at the sample inputs *)

Lemma handleRawIngress_forwards_command_witness :
  isCmd_bang "!ping" = true /\
  string_of_byte "!"%char = "!" /\
  handleRawIngress isCmd_bang "!" (raw "!ping") sample_state =
    (Ok tt,
     mkState
       (mkEngine [] [command "ping"] [] (plugins sample_engine)
                 (adapters sample_engine))
       []).
Proof.
  split; [reflexivity|]. split; [reflexivity|].
  exact (proj1 (handleRawIngress_forwards_command
                  isCmd_bang "!" (raw "!ping") sample_state "!"%char "ping"
                  eq_refl eq_refl)
               eq_refl).
Defined.

(** C1 as stated fails: with the character U+00E9 as the trigger prefix, a
    content flagged as a command that starts with U+00E9 is dropped with
    two warnings, the conversion of its first byte C3 being U+00C3; and so
    is, with the one byte E9 as the trigger prefix, a content that starts
    with the byte E9, whose conversion is the two bytes C3 A9. *)
Lemma handleRawIngress_first_character_counterexample :
  let trigger := encoderune 0xE9 in
  let out :=
    handleRawIngress isCmd_all trigger (raw (trigger +:+ "ping")) empty_state in
  let trigger' := bytes [0xE9] in
  let out' :=
    handleRawIngress isCmd_all trigger' (raw (trigger' +:+ "ping"))
                     empty_state in
  isCmd_all (trigger +:+ "ping") = true /\
  trigger = bytes [0xC3; 0xA9] /\
  ingressBuffer (eng out.2) = [] /\
  length (filter is_warning (trace out.2)) = 2%nat /\
  ingressBuffer (eng out'.2) = [] /\
  length (filter is_warning (trace out'.2)) = 2%nat /\
  ~ (exists ibm, ingressBuffer (eng out.2) = [ibm]) /\
  ~ (exists ibm, ingressBuffer (eng out'.2) = [ibm]).
Proof.
  repeat (split; [reflexivity|]).
  split; intros [ibm Hone]; vm_compute in Hone; discriminate.
Defined.

Lemma handleRawIngress_drops_non_command_witness :
  isCmd_bang "hello" = false /\
  handleRawIngress isCmd_bang "!" (raw "hello") sample_state =
    (Ok tt, sample_state).
Proof.
  split; [reflexivity|].
  apply (handleRawIngress_drops_non_command
           isCmd_bang "!" (raw "hello") sample_state).
  reflexivity.
Defined.

(** C4 as stated fails: flagged as a command with the trigger [#], the
    content [!ping] is dropped with two warning entries, not one.  And a
    first character that is not the trigger prefix need not be dropped:
    with the trigger prefix U+00FF (the bytes C3 BF), a content that
    starts with the byte FF is forwarded with no warning. *)
Lemma handleRawIngress_one_warning_counterexample :
  let out := handleRawIngress isCmd_all "#" (raw "!ping") empty_state in
  let trigger := encoderune 0xFF in
  let out' :=
    handleRawIngress isCmd_all trigger (raw (bytes [0xFF] +:+ "abc"))
                     empty_state in
  isCmd_all "!ping" = true /\
  string_of_byte "!"%char <> "#" /\
  length (filter is_warning (trace out.2)) = 2%nat /\
  ~ (ingressBuffer (eng out.2) = [] /\
     length (filter is_warning (trace out.2)) = 1%nat) /\
  trigger = bytes [0xC3; 0xBF] /\
  bytes [0xFF] <> trigger /\
  ingressBuffer (eng out'.2) = [command "abc"] /\
  length (filter is_warning (trace out'.2)) = 0%nat.
Proof.
  split; [reflexivity|]. split; [discriminate|]. split; [reflexivity|].
  split; [intros [_ Hone]; vm_compute in Hone; discriminate|].
  split; [reflexivity|]. split; [discriminate|].
  split; reflexivity.
Defined.

Lemma handleRawIngress_wrong_trigger_witness :
  isCmd_all "!ping" = true /\
  string_of_byte "!"%char <> "#" /\
  exists logged,
    handleRawIngress isCmd_all "#" (raw "!ping") empty_state =
      (Ok tt, mkState (eng empty_state) (trace empty_state ++ logged)) /\
    logged =
      [EvLog Warning
         "raw content was flagged as a command, but does not contain trigger prefix, skipping..."
         [];
       EvLog Warning "%v" [ArgString "!ping"]] /\
    length (filter is_warning logged) = 2%nat.
Proof.
  split; [reflexivity|]. split; [discriminate|].
  apply (proj1 (handleRawIngress_wrong_trigger
                  isCmd_all "#" (raw "!ping") empty_state "!"%char "ping"
                  eq_refl eq_refl)).
  discriminate.
Defined.

Lemma handleRawIngress_index_safety_witness :
  isCmd_all "" = true /\
  handleRawIngress isCmd_all "!" (raw "") sample_state =
    (Panic "index out of range [0] with length 0", sample_state).
Proof.
  split; [reflexivity|].
  apply (proj1 (proj2 (proj2
           (handleRawIngress_index_safety isCmd_all "!" (raw "") sample_state))));
    reflexivity.
Defined.

Lemma handleIngress_invokes_every_match_witness :
  (forall (A : Type) (m : gmap string A), range_sorted A m ≡ₚ map_to_list m) /\
  exists (evs : list Event) (egs : list egressBufferMsg.t),
    handleIngress range_sorted (command "status") sample_state =
      (Ok tt, with_egress sample_state egs evs) /\
    invocations evs ≡ₚ
      invocation (ingressBufferMsg.IngressMessage (command "status")) <$>
        filter (matches_content "status") (cmdLinks sample_engine) /\
    length (invocations evs) =
      length (filter (matches_content "status") (cmdLinks sample_engine)) /\
    length egs = length (filter responded (invocations evs)).
Proof.
  split; [intros A m; reflexivity|].
  apply (handleIngress_invokes_every_match
           range_sorted (fun A m => reflexivity (map_to_list m))
           (command "status") sample_state).
Defined.

Lemma run_phase_preserves_registry_witness :
  let s :=
    mkState
      (mkEngine [raw "!ping"] [] [] (plugins sample_engine)
                (adapters sample_engine))
      [] in
  let out := handleRawIngress isCmd_bang "!" (raw "!ping") sample_state in
  run isCmd_bang "!" range_sorted [discord] s s /\
  step isCmd_bang "!" range_sorted [discord] s out /\
  registry out.2 = registry s.
Proof.
  intros s out.
  assert (Hrun : run isCmd_bang "!" range_sorted [discord] s s)
    by apply run_done.
  assert (Hstep : step isCmd_bang "!" range_sorted [discord] s out)
    by (apply step_rawIngress; reflexivity).
  split; [exact Hrun|]. split; [exact Hstep|].
  exact (proj1 (proj2 (proj2 (proj2 (proj2 (proj2
           (run_phase_preserves_registry isCmd_bang "!" range_sorted))))))
           [discord] s s out Hrun Hstep).
Defined.

Lemma load_name_collision_overrides_witness :
  Plugin.Name plugin_dup1 = Plugin.Name plugin_dup2 /\
  exists ps evs,
    loadPlugins range_sorted (inl sample_config) sample_Join sample_LoadPlugin
                empty_state =
      (Ok None, with_plugins empty_state ps evs) /\
    ps !! "dup" = Some plugin_dup2 /\
    Forall is_info evs.
Proof.
  split; [reflexivity|].
  apply (proj1 (load_name_collision_overrides
                  range_sorted (inl sample_config) sample_Join
                  sample_LoadPlugin sample_LoadAdapter
                  sample_config empty_state [] [] [] "a" "b" eq_refl)
               plugin_dup1 plugin_dup2).
  - reflexivity.
  - repeat constructor; eexists; reflexivity.
  - reflexivity.
  - reflexivity.
  - reflexivity.
  - constructor.
Defined.

(** C10 as stated fails: with U+00C3 as the trigger prefix, a content
    that starts with U+00C3 passes the trigger test, so a first character
    of two bytes is matched; the message is forwarded, with the second
    byte of the character left at the head of its content. *)
Lemma multibyte_trigger_matched_counterexample :
  let out := handleRawIngress isCmd_all trigger_C3 (raw content_C3) empty_state in
  valid_rune 0xC3 /\
  rune1Max < 0xC3 /\
  trigger_C3 = encoderune 0xC3 /\
  content_C3 = encoderune 0xC3 +:+ "ping" /\
  trigger_ok trigger_C3 content_C3 /\
  ingressBuffer (eng out.2) = [command (bytes [0x83] +:+ "ping")] /\
  ~ (ingressBuffer (eng out.2) = []).
Proof.
  split; [unfold valid_rune, MaxRune, surrogateMin, surrogateMax; lia|].
  split; [reflexivity|]. split; [reflexivity|]. split; [reflexivity|].
  split; [eexists _, _; split; reflexivity|].
  split; [reflexivity|]. discriminate.
Defined.

Lemma trigger_check_and_strip_are_bytewise_witness :
  valid_rune 0xE9 /\
  rune1Max < 0xE9 /\
  exists b tail,
    encoderune 0xE9 +:+ "ping" = String b (tail +:+ "ping") /\
    tail ≠ "" /\
    parseRawContent (encoderune 0xE9 +:+ "ping") empty_state =
      (Ok (tail +:+ "ping"), empty_state) /\
    tail +:+ "ping" ≠ "ping" /\
    (encoderune 0xE9 = encoderune 0xE9 ->
     (trigger_ok (encoderune 0xE9) (encoderune 0xE9 +:+ "ping") <-> 0xE9 = 0xC3)).
Proof.
  assert (Hvalid : valid_rune 0xE9)
    by (unfold valid_rune, MaxRune, surrogateMin, surrogateMax; lia).
  assert (Hmulti : rune1Max < 0xE9) by reflexivity.
  split; [exact Hvalid|]. split; [exact Hmulti|].
  exact (proj2 (trigger_check_and_strip_are_bytewise isCmd_all (encoderune 0xE9))
               0xE9 "ping" empty_state Hvalid Hmulti).
Defined.

(** ** The scenarios of the specification *)

(** Trigger [!], content [!ping], a plugin answering [pong]: one egress
    message to the originating channel, sent through the originating
    adapter. *)
Example scenario_ping :
  let s1 := (handleRawIngress isCmd_bang "!" (raw "!ping") sample_state).2 in
  let s2 := (handleIngress range_sorted (command "ping") s1).2 in
  let ebm := egressBufferMsg.mk (Originator.mk "alice" "general" "discord")
                                (EgressMessage.mk "general" "pong") in
  ingressBuffer (eng s1) = [command "ping"] /\
  egressBuffer (eng s2) = [ebm] /\
  sends (trace (handleEgress ebm s2).2) =
    [(discord, EgressMessage.mk "general" "pong")].
Proof. repeat split; vm_compute; reflexivity. Qed.

(** Two plugins with patterns matching [status] that both answer, and a
    third pattern that matches and answers nothing: three invocations, two
    egress messages. *)
Example scenario_status :
  let out := handleIngress range_sorted (command "status") sample_state in
  length (invocations (trace out.2)) = 3%nat /\
  length (egressBuffer (eng out.2)) = 2%nat.
Proof. split; vm_compute; reflexivity. Qed.

(** Egress for an adapter name that is not registered panics. *)
Example scenario_unregistered_adapter :
  (handleEgress
     (egressBufferMsg.mk (Originator.mk "alice" "general" "irc")
                         (EgressMessage.mk "general" "pong"))
     sample_state).1 =
  Panic "invalid memory address or nil pointer dereference".
Proof. vm_compute. reflexivity. Qed.

(** ** The loaders and the life cycle at the sample inputs *)

Lemma loaders_stop_at_first_failure_witness :
  sample_LoadPlugin (extension_file sample_Join "plugins" "missing") =
    inr "plugin.Open: file does not exist" /\
  loadPlugins range_sorted (inl broken_config) sample_Join sample_LoadPlugin
              empty_state =
    (Ok (Some "plugin.Open: file does not exist"),
     with_plugins empty_state
       (register_plugins
          (loaded_plugins sample_Join sample_LoadPlugin "plugins" ["a"])
          (plugins (eng empty_state)))
       (EvLog Info "Loading plugins from: %v" [ArgString "plugins"] ::
        plugin_lines (["a"] ++ ["missing"]))).
Proof.
  split; [reflexivity|].
  apply (proj1 (loaders_stop_at_first_failure
                  range_sorted (inl broken_config) sample_Join
                  sample_LoadPlugin sample_LoadAdapter broken_config
                  empty_state ["a"] ["b"] "missing"
                  "plugin.Open: file does not exist" eq_refl)).
  - reflexivity.
  - repeat constructor. eexists. reflexivity.
  - reflexivity.
Defined.


Lemma LoadExtensions_keeps_registry_keyed_witness :
  plugins_keyed (plugins (eng empty_state)) /\
  adapters_keyed (adapters (eng empty_state)) /\
  plugins_keyed
    (plugins (eng (LoadExtensions range_sorted (inl sample_config) sample_Join
                     sample_LoadPlugin sample_LoadAdapter empty_state).2)) /\
  adapters_keyed
    (adapters (eng (LoadExtensions range_sorted (inl sample_config) sample_Join
                      sample_LoadPlugin sample_LoadAdapter empty_state).2)).
Proof.
  assert (Hps : plugins_keyed (plugins (eng empty_state))).
  { intros key loaded Hl. simpl in Hl. rewrite lookup_empty in Hl.
    discriminate. }
  assert (Hads : adapters_keyed (adapters (eng empty_state))).
  { intros key loaded Hl. simpl in Hl. rewrite lookup_empty in Hl.
    discriminate. }
  split; [exact Hps|]. split; [exact Hads|].
  exact (LoadExtensions_keeps_registry_keyed
           range_sorted (inl sample_config) sample_Join sample_LoadPlugin
           sample_LoadAdapter empty_state Hps Hads).
Defined.

Lemma loaders_keep_last_of_each_name_witness :
  plugins (eng (loadPlugins range_sorted (inl sample_config) sample_Join
                  sample_LoadPlugin empty_state).2) !! "dup" =
    Some plugin_dup2 /\
  adapters (eng (loadAdapters range_sorted (inl sample_config) sample_Join
                   sample_LoadAdapter empty_state).2) !! "chat" =
    Some adapter_dup2.
Proof.
  split.
  - rewrite (proj1 (loaders_keep_last_of_each_name
                      range_sorted (inl sample_config) sample_Join
                      sample_LoadPlugin sample_LoadAdapter sample_config
                      empty_state "dup" eq_refl)).
    reflexivity.
  - rewrite (proj2 (loaders_keep_last_of_each_name
                      range_sorted (inl sample_config) sample_Join
                      sample_LoadPlugin sample_LoadAdapter sample_config
                      empty_state "chat" eq_refl)).
    reflexivity.
Defined.

Lemma loaders_are_idempotent_on_registry_witness :
  plugins
    (eng (loadPlugins range_sorted (inl sample_config) sample_Join
            sample_LoadPlugin
            (loadPlugins range_sorted (inl sample_config) sample_Join
                         sample_LoadPlugin empty_state).2).2) =
  plugins
    (eng (loadPlugins range_sorted (inl sample_config) sample_Join
            sample_LoadPlugin empty_state).2).
Proof.
  exact (proj1 (loaders_are_idempotent_on_registry
                  range_sorted (inl sample_config) sample_Join
                  sample_LoadPlugin sample_LoadAdapter sample_config
                  empty_state eq_refl)).
Defined.

Lemma Start_listen_asks_every_adapter_witness :
  (forall (A : Type) (m : gmap string A), range_sorted A m ≡ₚ map_to_list m) /\
  Start_listen range_sorted sample_state =
    (Ok tt, mkState sample_engine [EvListen discord]).
Proof.
  split; [intros A m; reflexivity|].
  rewrite (proj1 (Start_listen_asks_every_adapter
                    range_sorted (fun A m => reflexivity (map_to_list m))
                    sample_state)).
  reflexivity.
Defined.

Lemma queued_state_routable :
  listening_registered [discord] queued_state /\
  buffers_routable queued_state.
Proof.
  split.
  - intros adapter Hin. apply list_elem_of_In in Hin.
    destruct Hin as [<-|[]]. reflexivity.
  - repeat split; repeat constructor. eexists. reflexivity.
Defined.

Lemma run_keeps_buffers_routable_witness :
  let out := handleRawIngress isCmd_bang "!" (raw "!ping") sample_state in
  listening_registered [discord] queued_state /\
  buffers_routable queued_state /\
  run isCmd_bang "!" range_sorted [discord] queued_state queued_state /\
  step isCmd_bang "!" range_sorted [discord] queued_state out /\
  buffers_routable out.2.
Proof.
  intros out. destruct queued_state_routable as [Hlisten Hbuf].
  assert (Hrun : run isCmd_bang "!" range_sorted [discord]
                     queued_state queued_state) by apply run_done.
  assert (Hstep : step isCmd_bang "!" range_sorted [discord] queued_state out)
    by (apply step_rawIngress; reflexivity).
  split; [exact Hlisten|]. split; [exact Hbuf|]. split; [exact Hrun|].
  split; [exact Hstep|].
  exact (proj2 (proj2 (run_keeps_buffers_routable
                         isCmd_bang "!" range_sorted [discord]
                         queued_state queued_state out
                         Hlisten Hbuf Hrun Hstep))).
Defined.



Lemma reply_leaves_through_originating_adapter_witness :
  let rim := RawIngressMessage.mk "alice" "general" "!ping" in
  let m := rawIngressBufferMsg.mk (Adapter.Name discord) rim in
  isCmd_bang "!ping" = true /\
  adapters (eng sample_state) !! Adapter.Name discord = Some discord /\
  exists (ibm : ingressBufferMsg.t) (evs : list Event)
         (egs : list egressBufferMsg.t),
    ingressBuffer (eng (handleRawIngress isCmd_bang "!" m sample_state).2) =
      ingressBuffer (eng sample_state) ++ [ibm] /\
    handleIngress range_sorted ibm sample_state =
      (Ok tt, with_egress sample_state egs evs) /\
    Forall
      (fun ebm =>
         EgressMessage.ChannelID (egressBufferMsg.EgressMessage ebm) =
           RawIngressMessage.ChannelID rim /\
         handleEgress ebm sample_state =
           (Ok tt,
            mkState (eng sample_state)
              (trace sample_state ++
               [EvLog Debug "Engine::handleEgress: %+v" [ArgEgress ebm];
                EvSendMessage discord (egressBufferMsg.EgressMessage ebm)])))
      egs.
Proof.
  intros rim m. split; [reflexivity|]. split; [reflexivity|].
  apply (reply_leaves_through_originating_adapter
           isCmd_bang "!" range_sorted discord rim
           sample_state sample_state sample_state "!"%char "ping");
    reflexivity.
Defined.

Lemma handleIngress_without_match_witness :
  (forall (A : Type) (m : gmap string A), range_sorted A m ≡ₚ map_to_list m) /\
  plugins (eng empty_state) = ∅ /\
  handleIngress range_sorted (command "ping") empty_state =
    (Ok tt,
     mkState (eng empty_state)
       (trace empty_state ++
        [EvLog Debug "Engine::handleIngress: %+v"
           [ArgIngress (ingressBufferMsg.IngressMessage (command "ping"))]])).
Proof.
  split; [intros A m; reflexivity|]. split; [reflexivity|].
  apply (proj2 (handleIngress_without_match
                  range_sorted (fun A m => reflexivity (map_to_list m))
                  (command "ping") empty_state)).
  reflexivity.
Defined.

Lemma trigger_prefix_must_be_short_witness :
  (2 < String.length "cmd:")%nat /\
  ingressBuffer
    (eng (handleRawIngress isCmd_all "cmd:" (raw "cmd:ping") sample_state).2) =
  ingressBuffer (eng sample_state).
Proof.
  assert (Hlong : (2 < String.length "cmd:")%nat) by (simpl; lia).
  split; [exact Hlong|].
  exact (proj2 (trigger_prefix_must_be_short isCmd_all "cmd:")
               (or_intror Hlong) (raw "cmd:ping") sample_state).
Defined.

Lemma forwarded_content_restores_raw_witness :
  isCmd_bang "!ping" = true /\
  trigger_ok "!" "!ping" /\
  exists c,
    handleRawIngress isCmd_bang "!" (raw "!ping") sample_state =
      send_ingressBuffer (forwarded (raw "!ping") c) sample_state /\
    String.length "!ping" = S (String.length c) /\
    (String.length "!" = 1%nat -> "!ping" = "!" +:+ c) /\
    (String.length "!" = 2%nat ->
     String.length ("!" +:+ c) = S (String.length "!ping")).
Proof.
  assert (Htrigger : trigger_ok "!" "!ping").
  { exists "!"%char, "ping". split; reflexivity. }
  split; [reflexivity|]. split; [exact Htrigger|].
  exact (forwarded_content_restores_raw
           isCmd_bang "!" (raw "!ping") sample_state eq_refl Htrigger).
Defined.

Lemma dispatch_reaches_no_panic_site_witness :
  let s_a := (handleRawIngress isCmd_bang "!" (raw "!ping") sample_state).2 in
  let s_b := (handleIngress range_sorted (command "ping") sample_state).2 in
  isCmd_bang "" = false /\
  run isCmd_bang "!" range_sorted [discord] queued_state s_b /\
  egressBuffer (eng s_b) =
    [egressBufferMsg.mk (Originator.mk "alice" "general" "discord")
                        (EgressMessage.mk "general" "pong")] /\
  (forall ebm s0,
      recv_egressBuffer s_b = Some (ebm, s0) ->
      exists adapter,
        adapters (eng s0) !!
          Originator.AdapterName (egressBufferMsg.Originator ebm) =
          Some adapter /\
        handleEgress ebm s0 =
          (Ok tt,
           mkState (eng s0)
             (trace s0 ++
              [EvLog Debug "Engine::handleEgress: %+v" [ArgEgress ebm];
               EvSendMessage adapter (egressBufferMsg.EgressMessage ebm)]))).
Proof.
  intros s_a s_b. destruct queued_state_routable as [Hlisten Hbuf].
  assert (Hrun : run isCmd_bang "!" range_sorted [discord] queued_state s_b).
  { apply (run_step _ _ _ _ queued_state s_a s_b).
    - replace (Ok tt, s_a)
        with (handleRawIngress isCmd_bang "!" (raw "!ping") sample_state)
        by reflexivity.
      apply step_rawIngress. reflexivity.
    - apply (run_step _ _ _ _ s_a s_b s_b); [|apply run_done].
      replace (Ok tt, s_b)
        with (handleIngress range_sorted (command "ping") sample_state)
        by (vm_compute; reflexivity).
      apply step_ingress. reflexivity. }
  split; [reflexivity|]. split; [exact Hrun|].
  split; [vm_compute; reflexivity|].
  exact (proj2 (dispatch_reaches_no_panic_site
                  isCmd_bang "!" range_sorted [discord] queued_state s_b
                  eq_refl Hlisten Hbuf Hrun)).
Defined.

Lemma started_engine_reaches_no_panic_site_witness :
  let e := mkEngine [] [] [] ∅ ∅ in
  let s1 := (LoadExtensions range_sorted (inl sample_config) sample_Join
                            sample_LoadPlugin sample_LoadAdapter
                            (mkState e [])).2 in
  let listening := map snd (range_sorted _ (adapters (eng s1))) in
  let s_start := ((logv Debug "Engine::Start";; Start_listen range_sorted) s1).2 in
  let m :=
    rawIngressBufferMsg.mk (Adapter.Name adapter_dup2)
      (RawIngressMessage.mk "alice" "general" "!ping") in
  let s_r := (send_rawIngressBuffer m s_start).2 in
  let s_i := (handleRawIngress isCmd_bang "!" m s_start).2 in
  let ibm :=
    ingressBufferMsg.mk
      (IngressMessage.mk (Originator.mk "alice" "general" "chat") "ping") in
  let s_e := (handleIngress range_sorted ibm s_start).2 in
  isCmd_bang "" = false /\
  NewEngine (inl sample_config) = Ok e /\
  Start isCmd_bang "!" range_sorted s1 s_e /\
  egressBuffer (eng s_e) =
    [egressBufferMsg.mk (Originator.mk "alice" "general" "chat")
                        (EgressMessage.mk "general" "two")] /\
  (forall ebm s0,
      recv_egressBuffer s_e = Some (ebm, s0) ->
      exists adapter,
        adapters (eng s0) !!
          Originator.AdapterName (egressBufferMsg.Originator ebm) =
          Some adapter /\
        handleEgress ebm s0 =
          (Ok tt,
           mkState (eng s0)
             (trace s0 ++
              [EvLog Debug "Engine::handleEgress: %+v" [ArgEgress ebm];
               EvSendMessage adapter (egressBufferMsg.EgressMessage ebm)]))).
Proof.
  intros e s1 listening s_start m s_r s_i ibm s_e.
  assert (Hrun : run isCmd_bang "!" range_sorted listening s_start s_e).
  { apply (run_step _ _ _ _ s_start s_r s_e).
    { replace (Ok tt, s_r) with (send_rawIngressBuffer m s_start)
        by reflexivity.
      apply step_relay. apply list_elem_of_In. vm_compute. left. reflexivity. }
    apply (run_step _ _ _ _ s_r s_i s_e).
    { replace (Ok tt, s_i) with (handleRawIngress isCmd_bang "!" m s_start)
        by (vm_compute; reflexivity).
      apply step_rawIngress. vm_compute. reflexivity. }
    apply (run_step _ _ _ _ s_i s_e s_e); [|apply run_done].
    replace (Ok tt, s_e) with (handleIngress range_sorted ibm s_start)
      by (vm_compute; reflexivity).
    apply step_ingress. vm_compute. reflexivity. }
  assert (Hstart : Start isCmd_bang "!" range_sorted s1 s_e).
  { exists s_start. split; [reflexivity|exact Hrun]. }
  split; [reflexivity|]. split; [reflexivity|]. split; [exact Hstart|].
  split; [vm_compute; reflexivity|].
  exact (proj2 (started_engine_reaches_no_panic_site
                  isCmd_bang "!" range_sorted
                  (fun A m => reflexivity (map_to_list m))
                  (inl sample_config) sample_Join sample_LoadPlugin
                  sample_LoadAdapter e s1 s_e eq_refl eq_refl eq_refl Hstart)).
Defined.

Lemma Start_without_adapters_is_idle_witness :
  let s' :=
    mkState (eng empty_state)
      (trace empty_state ++ [EvLog Debug "%v" [ArgString "Engine::Start"]]) in
  (forall (A : Type) (m : gmap string A), range_sorted A m ≡ₚ map_to_list m) /\
  adapters (eng empty_state) = ∅ /\
  buffers empty_state = ([], [], []) /\
  Start isCmd_bang "!" range_sorted empty_state s' /\
  s' = mkState (eng empty_state) [EvLog Debug "%v" [ArgString "Engine::Start"]].
Proof.
  intros s'.
  assert (Hstart : Start isCmd_bang "!" range_sorted empty_state s').
  { exists s'. split; [reflexivity|apply run_done]. }
  split; [intros A m; reflexivity|]. split; [reflexivity|].
  split; [reflexivity|]. split; [exact Hstart|].
  exact (Start_without_adapters_is_idle
           isCmd_bang "!" range_sorted (fun A m => reflexivity (map_to_list m))
           empty_state s' eq_refl eq_refl Hstart).
Defined.
